(** * NOAA API connector: a shallow embedding and its verification

    The development follows
    [task_geo/data_sources/noaa/noaa_api_connector.py]: station
    resolution ([get_stations_by_country]), request batching
    ([get_request_urls]), request execution with per-request failure
    capture ([get_parse_response]) and the pipeline driver
    ([noaa_api_connector]).

    Python exceptions are modelled by an [outcome] type, the side effects
    of the connector (HTTP GETs, log records, the reference-file download)
    by a state monad over [io_state] that keeps the state on an exception,
    and the collaborators the module imports (the lookup tables of
    [references], the remote API behind [requests.get], the clock behind
    [datetime.now]) by the read-only record [world]. *)

From Stdlib Require Import ZArith String Ascii List Lia DecimalString.
From stdpp Require Import base option list strings gmap.

Set Warnings "-register-all".

Local Open Scope string_scope.
Local Open Scope list_scope.
Local Open Scope nat_scope.

(** ** Python values that cross the connector *)

(** A parsed JSON document, as [response.json()] returns it. Numbers are
    carried as integers: the connector never computes with them. Objects
    are key/value lists in insertion order, as Python dicts are. *)
Inductive json : Type :=
| JNull
| JBool (b : bool)
| JNum (z : Z)
| JStr (s : string)
| JArr (items : list json)
| JObj (fields : list (string * json)).

(** Exceptions the connector and the libraries beneath it raise.
    [ValueError] carries the two arguments of line 48, [HTTPError] the
    status code, [KeyError] the missing label. [PandasError] stands for
    the rejection of a record list that is not a list of flat dicts. *)
Inductive exn : Type :=
| ValueError (msg : string) (arg : string)
| HTTPError (status_code : Z)
| ConnectionError
| JSONDecodeError
| TypeError
| KeyError (key : string)
| PandasError.

(** The class of an exception, by its Python name. *)
Definition exn_class (e : exn) : string :=
  match e with
  | ValueError _ _ => "ValueError"
  | HTTPError _ => "HTTPError"
  | ConnectionError => "ConnectionError"
  | JSONDecodeError => "JSONDecodeError"
  | TypeError => "TypeError"
  | KeyError _ => "KeyError"
  | PandasError => "PandasError"
  end.

Inductive outcome (A : Type) : Type :=
| Return (a : A)
| Raise (e : exn).
Arguments Return {A} a.
Arguments Raise {A} e.

Definition obind {A B} (o : outcome A) (k : A -> outcome B) : outcome B :=
  match o with
  | Return a => k a
  | Raise e => Raise e
  end.

(** ** Dates *)

Record date : Type := mk_date { d_year : nat; d_month : nat; d_day : nat }.

Record datetime : Type := mk_datetime {
  year : nat; month : nat; day : nat;
  hour : nat; minute : nat; second : nat; microsecond : nat
}.

(** [datetime.date()]: the time of day is discarded. *)
Definition dt_date (dt : datetime) : date :=
  mk_date (year dt) (month dt) (day dt).

Definition decimal (n : nat) : string :=
  NilZero.string_of_uint (Nat.to_uint n).

Fixpoint zeros (k : nat) : string :=
  match k with
  | O => ""
  | S k' => "0" ++ zeros k'
  end.

(** [%0wd]: decimal, left-padded with zeros to width [w]. *)
Definition zero_pad (w n : nat) : string :=
  zeros (w - String.length (decimal n)) ++ decimal n.

(** [date.isoformat()]: [YYYY-MM-DD]. *)
Definition isoformat (d : date) : string :=
  zero_pad 4 (d_year d) ++ "-" ++ zero_pad 2 (d_month d) ++ "-" ++ zero_pad 2 (d_day d).

(** ** Tables (the part of pandas the driver uses) *)

(** A cell is [None] where pandas holds NaN / a missing value. *)
Definition cell : Type := option json.

Record DataFrame : Type := mk_frame {
  columns : list string;
  rows : list (list cell)
}.

(** ** Collaborators *)

(** The response of one GET: the status code and the body, [None] when
    the body is not valid JSON. *)
Record response : Type := mk_response {
  status_code : Z;
  body : option json
}.

(** What [requests.get] does for a URL: the transport fails, or a
    response arrives. *)
Inductive fetch : Type :=
| Unreachable
| Responded (r : response).

(** The names imported from [task_geo.data_sources.noaa.references].
    The territory codes of a country are listed in iteration order. *)
Record references : Type := mk_references {
  COUNTRY_AND_TERRITORY_CODES : gmap string (list string);
  TERRITORY_ACTIVE_STATIONS_MAP : gmap string (list string);
  DATA_DIRECTORY : string;
  load_dataset_stations : DataFrame
}.

(** Everything a call reads and does not change. *)
Record world : Type := mk_world {
  refdata : references;
  remote : string -> fetch;
  now : datetime
}.

(** ** Module constants *)

Definition DEFAULT_METRICS : list string :=
  ["TMAX"; "TMIN"; "TAVG"; "PCRP"; "SNOW"; "SNWD"].

(** The valid values the docstring of [get_request_urls] lists
    (lines 66-72), in the docstring's order. *)
Definition VALID_METRICS : list string :=
  ["TMIN"; "TMAX"; "TAVG"; "SNOW"; "SNWD"; "PRCP"].

(** ** Station resolution *)

(** The loop body of lines 51-54: [stations.extend(code_stations)] when
    the territory has a station list. *)
Definition extend_with_territory (refs : references)
    (stations : list string) (code : string) : list string :=
  match TERRITORY_ACTIVE_STATIONS_MAP refs !! code with
  | Some code_stations => stations ++ code_stations
  | None => stations
  end.

Definition get_stations_by_country (refs : references) (country : string)
  : outcome (list string) :=
  match COUNTRY_AND_TERRITORY_CODES refs !! country with
  | None => Raise (ValueError "Wrong country code %s" country)
  | Some territory_codes =>
      Return (foldl (extend_with_territory refs) [] territory_codes)
  end.

(** ** Request batching *)

Definition base_url : string :=
  "https://www.ncei.noaa.gov/access/services/data/v1?dataset=daily-summaries".

Definition max_stations_req : nat := 50.

(** [sep.join(parts)]. *)
Definition join (sep : string) (parts : list string) : string :=
  String.concat sep parts.

Definition request_common_args (metrics : list string) : string :=
  "&format=json" ++ "&units=metric" ++ "&dataTypes=" ++ join "," metrics.

(** The f-string of lines 100 and 110-111, for one comma-joined station
    parameter. *)
Definition request_url (stations start end_ : string) (metrics : list string) : string :=
  base_url ++ "&stations=" ++ stations ++ "&startDate=" ++ start
    ++ "&endDate=" ++ end_ ++ request_common_args metrics.

(** [range(start, stop, step)] for a positive step; [fuel] bounds the
    number of elements. *)
Fixpoint range_from (fuel start stop step : nat) : list nat :=
  match fuel with
  | O => []
  | S fuel' =>
      if start <? stop
      then start :: range_from fuel' (start + step) stop step
      else []
  end.

Definition range (start stop step : nat) : list nat :=
  range_from stop start stop step.

(** [l[i:j]] for [i <= j]. *)
Definition slice {A} (l : list A) (i j : nat) : list A :=
  take (j - i) (drop i l).

(** Lines 103-106. *)
Definition chunked_station_list (stations_list : list string) : list (list string) :=
  map (fun i => slice stations_list i (i + max_stations_req))
      (range 0 (length stations_list) max_stations_req).

Definition get_request_urls (w : world) (country : string)
    (start_date : datetime) (end_date : option datetime)
    (metrics : option (list string)) : outcome (list string) :=
  let metrics := match metrics with None => DEFAULT_METRICS | Some m => m end in
  let end_date := match end_date with None => now w | Some e => e end in
  let start := isoformat (dt_date start_date) in
  let end_ := isoformat (dt_date end_date) in
  obind (get_stations_by_country (refdata w) country) (fun stations_list =>
    if length stations_list <? max_stations_req
    then
      let stations := join "," stations_list in
      Return [request_url stations start end_ metrics]
    else
      Return (map (fun chunk => request_url (join "," chunk) start end_ metrics)
                  (chunked_station_list stations_list))).

(** ** Effects *)

Inductive log_level : Type := DEBUG | INFO.

Inductive log_arg : Type :=
| ArgInt (z : Z)
| ArgStr (s : string).

(** One entry of the error list of [get_parse_response]: the dict
    [{'url': url, 'error': response.json()}]. *)
Record error_entry : Type := mk_error {
  err_url : string;
  err_error : json
}.

(** A log call: a format string with its arguments, or an error entry
    logged as the message itself (line 179). *)
Inductive log_message : Type :=
| Fmt (fmt : string) (args : list log_arg)
| Obj (e : error_entry).

(** What a call leaves behind: the GETs issued, the log records, the
    calls of [download_noaa_files] (with their [large_files] flag), and
    the files present locally. Lists grow at the end. *)
Record io_state : Type := mk_io {
  requested : list string;
  logged : list (log_level * log_message);
  downloads : list bool;
  files : gset string
}.

(** Computations with effects: the state survives an exception. *)
Definition IO (A : Type) : Type := io_state -> outcome A * io_state.

Definition ret {A} (a : A) : IO A := fun s => (Return a, s).

Definition throw {A} (e : exn) : IO A := fun s => (Raise e, s).

Definition bind {A B} (c : IO A) (k : A -> IO B) : IO B :=
  fun s =>
    match c s with
    | (Return a, s') => k a s'
    | (Raise e, s') => (Raise e, s')
    end.

Definition lift {A} (o : outcome A) : IO A := fun s => (o, s).

Declare Scope io_scope.
Delimit Scope io_scope with io.
Notation "'do' x <- c ; k" := (bind c (fun x => k))
  (at level 10, x name, c at level 100, k at level 200) : io_scope.
Local Open Scope io_scope.

Definition logging (lvl : log_level) (m : log_message) : IO unit :=
  fun s => (Return tt,
            mk_io (requested s) (logged s ++ [(lvl, m)]) (downloads s) (files s)).

(** [requests.get(url)]: the GET is issued, then the transport either
    fails or hands back the response. *)
Definition requests_get (w : world) (url : string) : IO response :=
  fun s =>
    let s' := mk_io (requested s ++ [url]) (logged s) (downloads s) (files s) in
    match remote w url with
    | Unreachable => (Raise ConnectionError, s')
    | Responded r => (Return r, s')
    end.

(** [response.raise_for_status()]: [HTTPError] for a 4xx or 5xx status. *)
Definition raise_for_status (r : response) : outcome unit :=
  if ((400 <=? status_code r) && (status_code r <? 600))%Z
  then Raise (HTTPError (status_code r))
  else Return tt.

(** [response.json()]. *)
Definition response_json (r : response) : outcome json :=
  match body r with
  | Some j => Return j
  | None => Raise JSONDecodeError
  end.

(** The items [list.extend] takes from its argument: the elements of a
    list, the keys of a dict, the characters of a string (one per byte of
    the string as held here, which is one per character for ASCII text);
    anything else is not iterable. *)
Definition iterate (j : json) : outcome (list json) :=
  match j with
  | JArr items => Return items
  | JObj fields => Return (map (fun kv => JStr (fst kv)) fields)
  | JStr s => Return (map (fun c => JStr (String c EmptyString)) (list_ascii_of_string s))
  | _ => Raise TypeError
  end.

(** ** Request execution *)

(** The loop of lines 133-145, from position [i] of the enumeration with
    the accumulators [results] and [errors]. *)
Fixpoint parse_loop (w : world) (total : Z) (i : nat) (urls : list string)
    (results : list json) (errors : list error_entry)
  : IO (list json * list error_entry) :=
  match urls with
  | [] => ret (results, errors)
  | url :: urls' =>
      do _ <- logging DEBUG (Fmt "Making request %s / %s"
                                 [ArgInt (Z.of_nat i + 1); ArgInt (total + 1)]);
      do response <- requests_get w url;
      match raise_for_status response with
      | Raise (HTTPError _) =>
          do error <- lift (response_json response);
          parse_loop w total (S i) urls' results (errors ++ [mk_error url error])
      | Raise e => throw e
      | Return _ =>
          do payload <- lift (response_json response);
          do items <- lift (iterate payload);
          parse_loop w total (S i) urls' (results ++ items) errors
      end
  end.

Definition get_parse_response (w : world) (urls : list string)
  : IO (list json * list error_entry) :=
  let total := (Z.of_nat (length urls) - 1)%Z in
  parse_loop w total 0 urls [] [].

(** ** Table operations *)

(** Equality of cells, as the merge compares its keys. *)
Fixpoint json_eqb (a b : json) : bool :=
  match a, b with
  | JNull, JNull => true
  | JBool x, JBool y => Bool.eqb x y
  | JNum x, JNum y => Z.eqb x y
  | JStr x, JStr y => String.eqb x y
  | JArr xs, JArr ys =>
      (fix items_eqb (xs ys : list json) : bool :=
         match xs, ys with
         | [], [] => true
         | x :: xs', y :: ys' => json_eqb x y && items_eqb xs' ys'
         | _, _ => false
         end) xs ys
  | JObj xs, JObj ys =>
      (fix fields_eqb (xs ys : list (string * json)) : bool :=
         match xs, ys with
         | [], [] => true
         | (k, x) :: xs', (k', y) :: ys' =>
             String.eqb k k' && json_eqb x y && fields_eqb xs' ys'
         | _, _ => false
         end) xs ys
  | _, _ => false
  end.

(** Missing values match each other in a pandas merge. *)
Definition cell_eqb (a b : cell) : bool :=
  match a, b with
  | None, None => true
  | Some x, Some y => json_eqb x y
  | _, _ => false
  end.

Fixpoint index_of (name : string) (labels : list string) : option nat :=
  match labels with
  | [] => None
  | c :: labels' =>
      if String.eqb c name then Some 0
      else option_map S (index_of name labels')
  end.

(** [name in data.columns]. *)
Definition has_column (data : DataFrame) (name : string) : bool :=
  match index_of name (columns data) with
  | Some _ => true
  | None => false
  end.

Definition record_fields (item : json) : outcome (list (string * json)) :=
  match item with
  | JObj fields => Return fields
  | _ => Raise PandasError
  end.

Fixpoint all_records (items : list json) : outcome (list (list (string * json))) :=
  match items with
  | [] => Return []
  | item :: items' =>
      obind (record_fields item) (fun r =>
      obind (all_records items') (fun rs => Return (r :: rs)))
  end.

(** Column labels in order of first appearance. *)
Definition add_labels (labels : list string) (fields : list (string * json)) : list string :=
  foldl (fun acc kv => if has_column (mk_frame acc []) (fst kv) then acc else acc ++ [fst kv])
        labels fields.

Definition field_cell (name : string) (fields : list (string * json)) : cell :=
  match find (fun kv => String.eqb (fst kv) name) fields with
  | Some (_, JNull) => None
  | Some (_, v) => Some v
  | None => None
  end.

(** [pd.DataFrame(result)] for a list of dicts: one row per dict, one
    column per key. A list with an element that is no dict yields no frame
    with a [STATION] column, and the driver fails on it; the model raises
    at once. *)
Definition pd_DataFrame (result : list json) : outcome DataFrame :=
  obind (all_records result) (fun records =>
    let labels := foldl add_labels [] records in
    Return (mk_frame labels
              (map (fun r => map (fun c => field_cell c r) labels) records))).

(** The suffix a merge puts on a label both frames have. *)
Definition suffixed (sfx : string) (others : list string) (c : string) : string :=
  if has_column (mk_frame others []) c then c +:+ sfx else c.

(** [left.merge(right, how='left', left_on=.., right_on=..)]: every left
    row is kept, in order, once per matching right row, or once with
    missing right cells when none matches. Frames are taken to have
    distinct labels. The keys are compared cell by cell; pandas in addition
    rejects key columns of incompatible types (numbers against strings) and
    unhashable keys, which is not modelled: where a merge is stated to
    return, the keys are strings on both sides. *)
Definition merge_left (left right : DataFrame) (left_on right_on : string)
  : outcome DataFrame :=
  match index_of right_on (columns right), index_of left_on (columns left) with
  | None, _ => Raise (KeyError right_on)
  | _, None => Raise (KeyError left_on)
  | Some ri, Some li =>
      let labels :=
        map (suffixed "_x" (columns right)) (columns left)
          ++ map (suffixed "_y" (columns left)) (columns right) in
      let join_row (lrow : list cell) : list (list cell) :=
        match List.filter (fun rrow => cell_eqb (nth li lrow None) (nth ri rrow None))
                          (rows right) with
        | [] => [lrow ++ replicate (length (columns right)) None]
        | matches => map (app lrow) matches
        end in
      Return (mk_frame labels (concat (map join_row (rows left))))
  end.

(** [del data[name]]. *)
Definition del_column (data : DataFrame) (name : string) : outcome DataFrame :=
  match index_of name (columns data) with
  | None => Raise (KeyError name)
  | Some i => Return (mk_frame (delete i (columns data)) (map (delete i) (rows data)))
  end.

Fixpoint indices_of (names labels : list string) : outcome (list nat) :=
  match names with
  | [] => Return []
  | n :: names' =>
      match index_of n labels with
      | None => Raise (KeyError n)
      | Some i => obind (indices_of names' labels) (fun idx => Return (i :: idx))
      end
  end.

(** [data[names]] for a list of labels. *)
Definition getitem (data : DataFrame) (names : list string) : outcome DataFrame :=
  obind (indices_of names (columns data)) (fun idx =>
    Return (mk_frame names
              (map (fun row => map (fun i => nth i row None) idx) (rows data)))).

(** ** The pipeline driver *)

Definition metadata_file (refs : references) : string :=
  DATA_DIRECTORY refs +:+ "/stations_metadata.txt".

Definition os_path_isfile (path : string) : IO bool :=
  fun s => (Return (bool_decide (path ∈ files s)), s).

(** Modelled from the spec: [ftp_connector.download_noaa_files] is not
    part of this module. The spec has it populate the local reference
    directory, after which the marker file exists. *)
Definition download_noaa_files (refs : references) (large_files : bool) : IO unit :=
  fun s => (Return tt,
            mk_io (requested s) (logged s) (downloads s ++ [large_files])
                  (files s ∪ {[ metadata_file refs ]})).

(** Lines 178-179. *)
Fixpoint log_errors (errors : list error_entry) : IO unit :=
  match errors with
  | [] => ret tt
  | error :: errors' =>
      do _ <- logging INFO (Obj error);
      log_errors errors'
  end.

(** The loop of lines 171-181 with the accumulator [result]. *)
Fixpoint country_loop (w : world) (countries : list string)
    (start_date : datetime) (end_date : option datetime)
    (metrics : option (list string)) (result : list json) : IO (list json) :=
  match countries with
  | [] => ret result
  | country :: countries' =>
      do _ <- logging INFO (Fmt "Requesting data for %s" [ArgStr country]);
      do urls <- lift (get_request_urls w country start_date end_date metrics);
      do parsed <- get_parse_response w urls;
      let country_results := fst parsed in
      let errors := snd parsed in
      do _ <- match errors with
              | [] => ret tt
              | _ :: _ =>
                  do _ <- logging INFO
                            (Fmt "The following errors where found during the operation:" []);
                  log_errors errors
              end;
      country_loop w countries' start_date end_date metrics (result ++ country_results)
  end.

Definition FIXED_COLUMNS : list string :=
  ["DATE"; "STATION"; "LATITUDE"; "LONGITUDE"; "ELEVATION"; "NAME";
   "GSN FLAG"; "HCN/CRN FLAG"; "WMO ID"].

(** Lines 183-188: the records as a frame, left-merged with the station
    metadata, without the metadata's [ID] and [STATE]. *)
Definition joined_data (refs : references) (result : list json) : outcome DataFrame :=
  obind (pd_DataFrame result) (fun data =>
  let stations := load_dataset_stations refs in
  obind (merge_left data stations "STATION" "ID") (fun data =>
  obind (del_column data "ID") (fun data =>
  del_column data "STATE"))).

(** Lines 190-199. *)
Definition ordered_columns (data : DataFrame) (metrics : option (list string))
  : outcome DataFrame :=
  let metrics := match metrics with None => DEFAULT_METRICS | Some m => m end in
  let columns := FIXED_COLUMNS ++ List.filter (has_column data) metrics in
  getitem data columns.

Definition noaa_api_connector (w : world) (countries : list string)
    (start_date : datetime) (end_date : option datetime)
    (metrics : option (list string)) : IO DataFrame :=
  do present <- os_path_isfile (metadata_file (refdata w));
  do _ <- (if present : bool then ret tt else download_noaa_files (refdata w) false);
  do result <- country_loop w countries start_date end_date metrics [];
  lift (obind (joined_data (refdata w) result) (fun data =>
        ordered_columns data metrics)).

(** A call from a blank slate. *)
Definition fresh : io_state := mk_io [] [] [] ∅.

(** ** Vocabulary of the statements *)

(** The station lists the territory-to-station mapping has for the given
    territory codes, in order; codes without an entry yield nothing. *)
Definition found_station_lists (refs : references) (territory_codes : list string)
  : list (list string) :=
  omap (fun code => TERRITORY_ACTIVE_STATIONS_MAP refs !! code) territory_codes.

(** [ceil(n / d)]. *)
Definition ceil_div (n d : nat) : nat := (n + d - 1) / d.

(** How one URL fares in an iteration of the loop of [get_parse_response]:
    the iteration raises, appends an error entry, or appends records. *)
Inductive url_fate : Type :=
| Aborts (e : exn)
| Fails (entry : error_entry)
| Succeeds (items : list json).

Definition fate (w : world) (url : string) : url_fate :=
  match remote w url with
  | Unreachable => Aborts ConnectionError
  | Responded r =>
      match raise_for_status r with
      | Raise (HTTPError _) =>
          match response_json r with
          | Return payload => Fails (mk_error url payload)
          | Raise e => Aborts e
          end
      | Raise e => Aborts e
      | Return _ =>
          match obind (response_json r) iterate with
          | Return items => Succeeds items
          | Raise e => Aborts e
          end
      end
  end.

Definition completes (w : world) (url : string) : Prop :=
  match fate w url with
  | Aborts _ => False
  | _ => True
  end.

(** What a URL adds to the result list and to the error list. *)
Definition records_of (w : world) (url : string) : list json :=
  match fate w url with
  | Succeeds items => items
  | _ => []
  end.

Definition errors_of (w : world) (url : string) : list error_entry :=
  match fate w url with
  | Fails entry => [entry]
  | _ => []
  end.

(** The response to [url] has a 4xx or 5xx status and the JSON body
    [payload]. *)
Definition request_failed (w : world) (url : string) (payload : json) : Prop :=
  exists r, remote w url = Responded r
            /\ (400 <= status_code r < 600)%Z
            /\ body r = Some payload.

(** The response to [url] has another status and a JSON body that
    iterates to [items]. *)
Definition request_succeeded (w : world) (url : string) (items : list json) : Prop :=
  exists r payload, remote w url = Responded r
                    /\ ~ (400 <= status_code r < 600)%Z
                    /\ body r = Some payload
                    /\ iterate payload = Return items.

(** The state after the GET of [url] at position [i] of the loop. *)
Definition after_get (total : Z) (i : nat) (url : string) (s : io_state) : io_state :=
  mk_io (requested s ++ [url])
        (logged s ++ [(DEBUG, Fmt "Making request %s / %s"
                                  [ArgInt (Z.of_nat i + 1); ArgInt (total + 1)])])
        (downloads s) (files s).

(** The URLs the driver requests for a country, and the records they
    bring. *)
Definition urls_of (w : world) (start_date : datetime) (end_date : option datetime)
    (metrics : option (list string)) (country : string) : list string :=
  match get_request_urls w country start_date end_date metrics with
  | Return urls => urls
  | Raise _ => []
  end.

Definition fetched_records (w : world) (start_date : datetime)
    (end_date : option datetime) (metrics : option (list string))
    (country : string) : list json :=
  concat (map (records_of w) (urls_of w start_date end_date metrics country)).

(** The progress record of request [i] (counted from 0) of [n]. *)
Definition progress_record (n i : nat) : log_level * log_message :=
  (DEBUG, Fmt "Making request %s / %s" [ArgInt (Z.of_nat i + 1); ArgInt (Z.of_nat n)]).

(** The log records that hold an error entry. *)
Definition is_error_record (record : log_level * log_message) : bool :=
  match snd record with
  | Obj _ => true
  | Fmt _ _ => false
  end.

(** The country resolves and each of its requests completes. *)
Definition country_completes (w : world) (start_date : datetime)
    (end_date : option datetime) (metrics : option (list string))
    (country : string) : Prop :=
  exists urls,
    get_request_urls w country start_date end_date metrics = Return urls
    /\ Forall (completes w) urls.

(** The error entries of all requests of a country. *)
Definition country_errors (w : world) (start_date : datetime)
    (end_date : option datetime) (metrics : option (list string))
    (country : string) : list error_entry :=
  concat (map (errors_of w) (urls_of w start_date end_date metrics country)).

(** The state after the driver has logged the errors of a country
    (lines 176-179): nothing is logged for an empty error list. *)
Definition after_errors (errors : list error_entry) (s : io_state) : io_state :=
  match errors with
  | [] => s
  | _ :: _ =>
      mk_io (requested s)
            (logged s
               ++ (INFO, Fmt "The following errors where found during the operation:" [])
                  :: map (fun error => (INFO, Obj error)) errors)
            (downloads s) (files s)
  end.

(** The state after the driver has announced a country (line 172). *)
Definition after_announcement (country : string) (s : io_state) : io_state :=
  mk_io (requested s)
        (logged s ++ [(INFO, Fmt "Requesting data for %s" [ArgStr country])])
        (downloads s) (files s).

(** The state after the file check of lines 167-168: the download has run,
    with [large_files=False], when the metadata file was absent. *)
Definition after_check (refs : references) (s : io_state) : io_state :=
  if bool_decide (metadata_file refs ∈ files s) then s
  else mk_io (requested s) (logged s) (downloads s ++ [false])
             (files s ∪ {[ metadata_file refs ]}).

(** [data[name]] as a list of cells, one per row; [None] when the frame
    has no such column. *)
Definition column (data : DataFrame) (name : string) : option (list cell) :=
  match index_of name (columns data) with
  | Some i => Some (map (fun row => nth i row None) (rows data))
  | None => None
  end.

(** The metadata rows whose [ID] equals the given station cell. *)
Definition metadata_matches (stations : DataFrame) (station : cell) : list (list cell) :=
  match index_of "ID" (columns stations) with
  | Some ri => List.filter (fun rrow => cell_eqb station (nth ri rrow None)) (rows stations)
  | None => []
  end.

(** The cell of metadata column [name] for a station: that of the first
    metadata row with this [ID], missing when there is none. *)
Definition metadata_cell (stations : DataFrame) (name : string) (station : cell) : cell :=
  match metadata_matches stations station, index_of name (columns stations) with
  | rrow :: _, Some i => nth i rrow None
  | _, _ => None
  end.

(** Two runs, started in [s1] and [s2], have the same outcome and have
    issued the same requests in the same order. *)
Definition same_effect {A} (r1 r2 : outcome A * io_state) (s1 s2 : io_state) : Prop :=
  fst r1 = fst r2
  /\ exists issued,
       requested (snd r1) = requested s1 ++ issued
       /\ requested (snd r2) = requested s2 ++ issued.

(** ** A small world to run the connector in *)

Module Example.
Definition stations : DataFrame :=
  mk_frame
    ["ID"; "LATITUDE"; "LONGITUDE"; "ELEVATION"; "STATE"; "NAME";
     "GSN FLAG"; "HCN/CRN FLAG"; "WMO ID"]
    [[Some (JStr "S1"); Some (JNum 40); Some (JNum (-105)); Some (JNum 1600);
      Some (JStr "CO"); Some (JStr "BOULDER"); None; Some (JStr "HCN"); None];
     [Some (JStr "C1"); Some (JNum 45); Some (JNum (-75)); Some (JNum 70);
      Some (JStr "ON"); Some (JStr "OTTAWA"); Some (JStr "GSN"); None;
      Some (JNum 71628)]].

(** "US" spans three territory codes, one of them ("XX") without a
    station list; station "S2" is listed under two territories. "AQ" has
    a territory without stations, "RS" one with 120 stations. *)
Definition refs : references :=
  mk_references
    {[ "US" := ["US"; "XX"; "PR"]; "CA" := ["CA"]; "AQ" := ["AQ"]; "RS" := ["RS"] ]}
    {[ "US" := ["S1"; "S2"]; "PR" := ["S2"; "S3"]; "CA" := ["C1"];
       "RS" := map (fun i => "R" +:+ decimal i) (seq 0 120) ]}
    "data"
    stations.

Definition start_date : datetime := mk_datetime 2020 3 1 8 30 0 0.
Definition end_date : datetime := mk_datetime 2020 3 30 17 0 0 0.

Definition url_US : string :=
  request_url "S1,S2,S2,S3" "2020-03-01" "2020-03-30" ["SNOW"; "TMAX"].
Definition url_CA : string :=
  request_url "C1" "2020-03-01" "2020-03-30" ["SNOW"; "TMAX"].

Definition records_US : list json :=
  [JObj [("DATE", JStr "2020-03-01"); ("STATION", JStr "S1"); ("TMAX", JStr "12.3")];
   JObj [("DATE", JStr "2020-03-01"); ("STATION", JStr "S3"); ("TMAX", JStr "28.0")]].

Definition error_CA : json :=
  JObj [("errorMessage", JStr "Service Unavailable"); ("errorCode", JStr "503")].

(** The remote API: the US request succeeds, the Canadian one fails with
    a structured error; of the two bare URLs one succeeds and one comes
    back from a gateway with a 502 and an HTML body. Anything else is
    unreachable. *)
Definition api (url : string) : fetch :=
  if String.eqb url url_US then Responded (mk_response 200 (Some (JArr records_US)))
  else if String.eqb url url_CA then Responded (mk_response 503 (Some error_CA))
  else if String.eqb url "https://ok" then
    Responded (mk_response 200 (Some (JArr records_US)))
  else if String.eqb url "https://bad" then Responded (mk_response 502 None)
  else Unreachable.

Definition w : world := mk_world refs api (mk_datetime 2020 4 2 12 0 0 0).

(** Requests with the end date left open on 2 April 2020. *)
Definition url_US_open : string :=
  request_url "S1,S2,S2,S3" "2020-03-01" "2020-04-02" ["SNOW"; "TMAX"].
Definition url_CA_open : string :=
  request_url "C1" "2020-03-01" "2020-04-02" ["SNOW"; "TMAX"].

(** A remote API that answers these requests as well. *)
Definition api_open (url : string) : fetch :=
  if String.eqb url url_US_open then
    Responded (mk_response 200 (Some (JArr records_US)))
  else if String.eqb url url_CA_open then Responded (mk_response 503 (Some error_CA))
  else api url.

(** The same answers, looked up in another order. *)
Definition api_reordered (url : string) : fetch :=
  if String.eqb url "https://bad" then Responded (mk_response 502 None)
  else if String.eqb url url_CA_open then Responded (mk_response 503 (Some error_CA))
  else if String.eqb url url_CA then Responded (mk_response 503 (Some error_CA))
  else if String.eqb url "https://ok" then
    Responded (mk_response 200 (Some (JArr records_US)))
  else if String.eqb url url_US then
    Responded (mk_response 200 (Some (JArr records_US)))
  else if String.eqb url url_US_open then
    Responded (mk_response 200 (Some (JArr records_US)))
  else Unreachable.

(** Two worlds on the same day, at noon and late at night, and one a day
    later. *)
Definition w_noon : world := mk_world refs api_open (mk_datetime 2020 4 2 12 0 0 0).
Definition w_night : world :=
  mk_world refs api_reordered (mk_datetime 2020 4 2 23 59 59 0).
Definition w_next_day : world :=
  mk_world refs api_open (mk_datetime 2020 4 3 0 0 1 0).

(** The same world on another day. *)
Definition w_later : world := mk_world refs api (mk_datetime 2021 1 1 0 0 0 0).

Definition table_US : DataFrame :=
  mk_frame
    ["DATE"; "STATION"; "LATITUDE"; "LONGITUDE"; "ELEVATION"; "NAME";
     "GSN FLAG"; "HCN/CRN FLAG"; "WMO ID"; "TMAX"]
    [[Some (JStr "2020-03-01"); Some (JStr "S1"); Some (JNum 40); Some (JNum (-105));
      Some (JNum 1600); Some (JStr "BOULDER"); None; Some (JStr "HCN"); None;
      Some (JStr "12.3")];
     [Some (JStr "2020-03-01"); Some (JStr "S3"); None; None; None; None; None; None;
      None; Some (JStr "28.0")]].
End Example.

(** * Properties *)

(** ** Default metrics *)

(** C2 (evaluation of the code where it departs from the claim): the
    default metric list holds "PCRP", which is not one of the documented
    valid values, and lacks the documented "PRCP"; every other default
    metric is documented. A request built with the metrics omitted asks
    the remote API for "PCRP". *)
Theorem DEFAULT_METRICS_not_all_valid :
  ("PCRP" ∈ DEFAULT_METRICS) /\ ("PCRP" ∉ VALID_METRICS)
  /\ ("PRCP" ∈ VALID_METRICS) /\ ("PRCP" ∉ DEFAULT_METRICS)
  /\ ~ Forall (fun m => m ∈ VALID_METRICS) DEFAULT_METRICS
  /\ List.filter (fun m => negb (bool_decide (m ∈ VALID_METRICS))) DEFAULT_METRICS = ["PCRP"]
  /\ request_common_args DEFAULT_METRICS
     = "&format=json&units=metric&dataTypes=TMAX,TMIN,TAVG,PCRP,SNOW,SNWD".
Proof.
  assert (Hin : "PCRP" ∈ DEFAULT_METRICS) by compute_done.
  assert (Hout : "PCRP" ∉ VALID_METRICS) by compute_done.
  split; [exact Hin|]. split; [exact Hout|].
  split; [compute_done|]. split; [compute_done|].
  split; [|split; reflexivity].
  intros Hall. rewrite Forall_forall in Hall. exact (Hout (Hall _ Hin)).
Qed.

(** ** Resolving stations *)

Section Resolution.
Variable refs : references.

Lemma extend_loop_concat (territory_codes : list string) (stations : list string) :
  foldl (extend_with_territory refs) stations territory_codes
  = stations ++ concat (found_station_lists refs territory_codes).
Proof.
  revert stations.
  induction territory_codes as [|code codes IH]; intros stations; simpl.
  - by rewrite app_nil_r.
  - rewrite IH. unfold extend_with_territory.
    destruct (TERRITORY_ACTIVE_STATIONS_MAP refs !! code) as [code_stations|]; simpl.
    + by rewrite app_assoc.
    + done.
Qed.

Lemma count_occ_concat (s : string) (ls : list (list string)) :
  count_occ string_dec (concat ls) s
  = sum_list (map (fun l => count_occ string_dec l s) ls).
Proof.
  induction ls as [|l ls IH]; simpl; [done|].
  by rewrite count_occ_app, IH.
Qed.
End Resolution.

(** C7: for a known country the resolver returns the station lists of the
    country's territory codes, concatenated in territory order and, within
    a territory, in list order; territory codes without a station list are
    skipped; nothing is deduplicated: a station occurs in the result as
    often as it occurs in all found lists together. *)
Theorem get_stations_by_country_known (refs : references) (country : string)
    (territory_codes : list string) :
  COUNTRY_AND_TERRITORY_CODES refs !! country = Some territory_codes ->
  get_stations_by_country refs country
    = Return (concat (found_station_lists refs territory_codes))
  /\ (forall code, TERRITORY_ACTIVE_STATIONS_MAP refs !! code = None ->
        found_station_lists refs [code] = [])
  /\ (forall codes1 codes2,
        found_station_lists refs (codes1 ++ codes2)
        = found_station_lists refs codes1 ++ found_station_lists refs codes2)
  /\ (forall s,
        count_occ string_dec (concat (found_station_lists refs territory_codes)) s
        = sum_list (map (fun l => count_occ string_dec l s)
                        (found_station_lists refs territory_codes)))
  /\ length (concat (found_station_lists refs territory_codes))
     = sum_list (map length (found_station_lists refs territory_codes)).
Proof.
  intros Hknown. repeat split.
  - unfold get_stations_by_country. rewrite Hknown.
    by rewrite extend_loop_concat.
  - intros code Hnone. unfold found_station_lists. simpl. by rewrite Hnone.
  - intros codes1 codes2. unfold found_station_lists. apply omap_app.
  - intros s. apply count_occ_concat.
  - induction (found_station_lists refs territory_codes) as [|l ls IH]; simpl; [done|].
    by rewrite length_app, IH.
Qed.

(** A raising loop makes the driver raise, with the GETs of the loop. *)
Lemma noaa_api_connector_loop_raises (w : world) (countries : list string)
    (start_date : datetime) (end_date : option datetime)
    (metrics : option (list string)) (error : exn) :
  (forall s,
     fst (country_loop w countries start_date end_date metrics [] s) = Raise error
     /\ requested (snd (country_loop w countries start_date end_date metrics [] s))
        = requested s) ->
  forall s,
    fst (noaa_api_connector w countries start_date end_date metrics s) = Raise error
    /\ requested (snd (noaa_api_connector w countries start_date end_date metrics s))
       = requested s.
Proof.
  intros Hloop s. unfold noaa_api_connector, bind, os_path_isfile.
  destruct (bool_decide _); unfold ret, download_noaa_files.
  - destruct (Hloop s) as [Ho Hr].
    destruct (country_loop w countries start_date end_date metrics [] s)
      as [[result|e] s']; simpl in Ho, Hr |- *; [discriminate|split; [congruence|assumption]].
  - match goal with
    | |- context [country_loop w _ _ _ _ [] ?s0] =>
        destruct (Hloop s0) as [Ho Hr];
        destruct (country_loop w countries start_date end_date metrics [] s0)
          as [[result|e] s']
    end; simpl in Ho, Hr |- *; [discriminate|split; [congruence|assumption]].
Qed.

(** C5, as the code has it: a country code that is no key of the
    country-to-territory mapping makes the resolver raise a [ValueError]
    with the code as its argument; building the requests for it raises the
    same exception instead of returning any URL, and the driver, reaching
    that country, raises it without issuing a single GET for it or for any
    later country. It is not treated as a country without stations. *)
Theorem unknown_country_raises (w : world) (country : string)
    (start_date : datetime) (end_date : option datetime)
    (metrics : option (list string)) :
  COUNTRY_AND_TERRITORY_CODES (refdata w) !! country = None ->
  let error := ValueError "Wrong country code %s" country in
  get_stations_by_country (refdata w) country = Raise error
  /\ exn_class error = "ValueError"
  /\ get_stations_by_country (refdata w) country <> Return []
  /\ get_request_urls w country start_date end_date metrics = Raise error
  /\ (forall later result s,
        fst (country_loop w (country :: later) start_date end_date metrics result s)
          = Raise error
        /\ requested (snd (country_loop w (country :: later) start_date end_date
                             metrics result s))
           = requested s)
  /\ (forall later s,
        fst (noaa_api_connector w (country :: later) start_date end_date metrics s)
          = Raise error
        /\ requested (snd (noaa_api_connector w (country :: later) start_date end_date
                             metrics s))
           = requested s).
Proof.
  intros Hunknown error.
  assert (Hresolve : get_stations_by_country (refdata w) country = Raise error).
  { unfold get_stations_by_country. by rewrite Hunknown. }
  assert (Hurls : get_request_urls w country start_date end_date metrics = Raise error).
  { unfold get_request_urls. by rewrite Hresolve. }
  assert (Hloop : forall later result s,
    fst (country_loop w (country :: later) start_date end_date metrics result s)
      = Raise error
    /\ requested (snd (country_loop w (country :: later) start_date end_date
                         metrics result s))
       = requested s).
  { intros later result s. cbn [country_loop]. unfold bind, logging, lift.
    rewrite Hurls. by simpl. }
  split; [exact Hresolve|]. split; [reflexivity|]. split; [by rewrite Hresolve|].
  split; [exact Hurls|]. split; [exact Hloop|].
  intros later. apply noaa_api_connector_loop_raises. intros s. apply Hloop.
Qed.

(** ** Batching *)

Section Chunks.
Context {A : Type}.
Variable l : list A.

Lemma ceil_div_zero : ceil_div 0 max_stations_req = 0.
Proof. reflexivity. Qed.

Lemma ceil_div_step (n : nat) :
  0 < n ->
  ceil_div n max_stations_req = S (ceil_div (n - max_stations_req) max_stations_req).
Proof.
  intros Hpos. unfold ceil_div, max_stations_req.
  destruct (Nat.lt_ge_cases n 50) as [Hlt|Hge].
  - replace (n - 50) with 0 by lia.
    change ((0 + 50 - 1) / 50) with 0.
    symmetry. apply Nat.div_unique with (r := n - 1); lia.
  - replace (n + 50 - 1) with ((n - 50 + 50 - 1) + 1 * 50) by lia.
    rewrite Nat.div_add by lia. lia.
Qed.

Lemma range_from_length (fuel start stop : nat) :
  stop - start <= fuel ->
  length (range_from fuel start stop max_stations_req)
  = ceil_div (stop - start) max_stations_req.
Proof.
  revert start.
  induction fuel as [|fuel IH]; intros start Hfuel; cbn [range_from].
  - replace (stop - start) with 0 by lia. reflexivity.
  - destruct (Nat.ltb_spec start stop) as [Hlt|Hge]; cbn [length].
    + rewrite IH by (unfold max_stations_req; lia).
      rewrite (ceil_div_step (stop - start)) by lia.
      do 2 f_equal. lia.
    + replace (stop - start) with 0 by lia. reflexivity.
Qed.

Lemma range_from_lookup (fuel start stop k i : nat) :
  range_from fuel start stop max_stations_req !! k = Some i ->
  i = start + max_stations_req * k /\ i < stop.
Proof.
  revert start k.
  induction fuel as [|fuel IH]; intros start k; cbn [range_from]; [done|].
  destruct (Nat.ltb_spec start stop) as [Hlt|Hge]; [|done].
  destruct k as [|k]; cbn [lookup list_lookup].
  - intros [= <-]. unfold max_stations_req. lia.
  - intros Hk. apply IH in Hk. unfold max_stations_req in *. lia.
Qed.

Lemma chunks_from_concat (fuel start : nat) :
  length l - start <= fuel ->
  concat (map (fun i => slice l i (i + max_stations_req))
              (range_from fuel start (length l) max_stations_req))
  = drop start l.
Proof.
  revert start.
  induction fuel as [|fuel IH]; intros start Hfuel; simpl.
  - rewrite drop_ge by lia. reflexivity.
  - destruct (Nat.ltb_spec start (length l)) as [Hlt|Hge]; simpl.
    + rewrite IH by (unfold max_stations_req; lia).
      unfold slice.
      replace (start + max_stations_req - start) with max_stations_req by lia.
      rewrite <- drop_drop.
      apply take_drop.
    + rewrite drop_ge by lia. reflexivity.
Qed.

Lemma slice_length (i : nat) :
  length (slice l i (i + max_stations_req))
  = Nat.min max_stations_req (length l - i).
Proof.
  unfold slice. rewrite length_take, length_drop.
  replace (i + max_stations_req - i) with max_stations_req by lia. reflexivity.
Qed.
End Chunks.

Lemma chunked_station_list_length (stations_list : list string) :
  length (chunked_station_list stations_list)
  = ceil_div (length stations_list) max_stations_req.
Proof.
  unfold chunked_station_list, range.
  rewrite length_map, range_from_length by lia.
  by rewrite Nat.sub_0_r.
Qed.

Lemma chunked_station_list_concat (stations_list : list string) :
  concat (chunked_station_list stations_list) = stations_list.
Proof.
  unfold chunked_station_list, range.
  by rewrite chunks_from_concat by lia.
Qed.

Lemma chunked_station_list_lookup (stations_list : list string) (k : nat)
    (chunk : list string) :
  chunked_station_list stations_list !! k = Some chunk ->
  chunk = take max_stations_req (drop (max_stations_req * k) stations_list)
  /\ max_stations_req * k < length stations_list.
Proof.
  unfold chunked_station_list, range. rewrite list_lookup_fmap.
  destruct (range_from _ _ _ _ !! k) as [i|] eqn:Hi; simpl; [|done].
  intros [= <-]. apply range_from_lookup in Hi as [-> Hlt].
  unfold slice, max_stations_req in *. split; [|lia].
  replace (0 + 50 * k + 50 - (0 + 50 * k)) with 50 by lia.
  by replace (0 + 50 * k) with (50 * k) by lia.
Qed.

Lemma ceil_div_bounds (n : nat) :
  n <= max_stations_req * ceil_div n max_stations_req < n + max_stations_req.
Proof.
  unfold ceil_div, max_stations_req.
  pose proof (Nat.div_mod_eq (n + 50 - 1) 50) as Hdiv.
  pose proof (Nat.mod_upper_bound (n + 50 - 1) 50) as Hmod.
  lia.
Qed.

(** C3: for a country that resolves to [n] stations, the request URLs are
    the f-string of the code applied to a list of station chunks that has
    [max 1 (ceil (n / 50))] elements, concatenates to the resolved list,
    and whose [k]-th chunk is the 50 stations from position [50 * k] on
    (fewer only in the last chunk); with fewer than 50 stations there is
    the one chunk of all stations, and with none the one request with an
    empty [stations] parameter. *)
Theorem get_request_urls_batches (w : world) (country : string)
    (start_date : datetime) (end_date : option datetime)
    (metrics : option (list string)) (stations_list : list string) :
  get_stations_by_country (refdata w) country = Return stations_list ->
  let n := length stations_list in
  let url_of (chunk : list string) :=
    request_url (join "," chunk)
                (isoformat (dt_date start_date))
                (isoformat (dt_date (default (now w) end_date)))
                (default DEFAULT_METRICS metrics) in
  exists chunks : list (list string),
    get_request_urls w country start_date end_date metrics = Return (map url_of chunks)
    /\ length chunks = Nat.max 1 (ceil_div n 50)
    /\ n <= 50 * ceil_div n 50 < n + 50
    /\ concat chunks = stations_list
    /\ (forall k chunk, chunks !! k = Some chunk ->
          chunk = take 50 (drop (50 * k) stations_list)
          /\ length chunk <= 50
          /\ (S k < length chunks -> length chunk = 50))
    /\ (0 < n < 50 -> chunks = [stations_list])
    /\ (50 <= n ->
          length chunks = ceil_div n 50 /\ Forall (fun chunk => 0 < length chunk) chunks)
    /\ (n = 0 ->
          chunks = [[]]
          /\ get_request_urls w country start_date end_date metrics
             = Return [request_url "" (isoformat (dt_date start_date))
                                   (isoformat (dt_date (default (now w) end_date)))
                                   (default DEFAULT_METRICS metrics)]).
Proof.
  intros Hresolved n url_of.
  pose proof (ceil_div_bounds n) as Hceil. change max_stations_req with 50 in Hceil.
  unfold get_request_urls. rewrite Hresolved. cbn [obind].
  fold n. destruct (Nat.ltb_spec n max_stations_req) as [Hlt|Hge];
    change max_stations_req with 50 in *.
  - exists [stations_list].
    assert (Hone : ceil_div n 50 <= 1) by lia.
    split; [done|]. split; [cbn [length]; lia|]. split; [exact Hceil|].
    split; [cbn [concat]; by rewrite app_nil_r|].
    split.
    { intros [|k] chunk Hk; [|done]. injection Hk as <-.
      rewrite Nat.mul_0_r, drop_0, take_ge by (fold n; lia).
      split; [done|]. split; [fold n; lia|]. cbn [length]. lia. }
    split; [done|]. split; [lia|].
    intros Hzero. apply length_zero_iff_nil in Hzero. by rewrite Hzero.
  - exists (chunked_station_list stations_list).
    pose proof (chunked_station_list_length stations_list) as Hlen.
    change max_stations_req with 50 in Hlen. fold n in Hlen.
    assert (Hmany : 1 <= ceil_div n 50) by lia.
    split; [done|]. split; [lia|]. split; [exact Hceil|].
    split; [apply chunked_station_list_concat|].
    split.
    { intros k chunk Hk.
      destruct (chunked_station_list_lookup _ _ _ Hk) as [Hchunk Hstart].
      change max_stations_req with 50 in *.
      split; [exact Hchunk|].
      rewrite Hchunk, length_take, length_drop. split; [lia|].
      intros Hnext.
      destruct (lookup_lt_is_Some_2 (chunked_station_list stations_list) (S k) Hnext)
        as [next Hnext_chunk].
      apply chunked_station_list_lookup in Hnext_chunk as [_ Hnext_start].
      change max_stations_req with 50 in *. fold n. fold n in Hnext_start. lia. }
    split; [lia|]. split; [|lia].
    split; [exact Hlen|].
    apply Forall_lookup. intros k chunk Hk.
    apply chunked_station_list_lookup in Hk as [-> Hstart].
    change max_stations_req with 50 in *.
    rewrite length_take, length_drop. lia.
Qed.

(** ** Executing requests *)

Section Execution.
Variable w : world.

Lemma raise_for_status_cases (r : response) :
  (raise_for_status r = Raise (HTTPError (status_code r))
   /\ (400 <= status_code r < 600)%Z)
  \/ (raise_for_status r = Return tt /\ ~ (400 <= status_code r < 600)%Z).
Proof.
  unfold raise_for_status.
  destruct (Z.leb_spec 400 (status_code r)), (Z.ltb_spec (status_code r) 600);
    simpl; [left|right|right|right]; split; try done; lia.
Qed.

(** One iteration of the loop. *)
Lemma parse_loop_step (total : Z) (i : nat) (url : string) (urls : list string)
    (results : list json) (errors : list error_entry) (s : io_state) :
  parse_loop w total i (url :: urls) results errors s
  = match fate w url with
    | Aborts e => (Raise e, after_get total i url s)
    | Fails entry =>
        parse_loop w total (S i) urls results (errors ++ [entry])
                   (after_get total i url s)
    | Succeeds items =>
        parse_loop w total (S i) urls (results ++ items) errors
                   (after_get total i url s)
    end.
Proof.
  cbn [parse_loop]. unfold bind at 1. unfold logging at 1.
  unfold bind at 1. unfold requests_get at 1. cbn [requested logged downloads files].
  unfold fate, after_get.
  destruct (remote w url) as [|r]; [done|].
  destruct (raise_for_status_cases r) as [[-> _]|[-> _]].
  - unfold bind, lift. destruct (response_json r); done.
  - unfold bind, lift, obind.
    destruct (response_json r) as [payload|]; [|done].
    destruct (iterate payload); done.
Qed.

Lemma parse_loop_completes (total : Z) (urls : list string) :
  Forall (completes w) urls ->
  forall i results errors s,
  exists s',
    parse_loop w total i urls results errors s
    = (Return (results ++ concat (map (records_of w) urls),
               errors ++ concat (map (errors_of w) urls)), s')
    /\ requested s' = requested s ++ urls.
Proof.
  induction 1 as [|url urls Hurl _ IH]; intros i results errors s.
  - exists s. cbn. by rewrite !app_nil_r.
  - rewrite parse_loop_step. cbn [map concat].
    unfold completes, records_of, errors_of in *.
    destruct (fate w url) as [e|entry|items]; [done| |].
    + destruct (IH (S i) results (errors ++ [entry]) (after_get total i url s))
        as (s' & -> & Hreq).
      exists s'. rewrite Hreq. cbn. by rewrite <- !app_assoc.
    + destruct (IH (S i) (results ++ items) errors (after_get total i url s))
        as (s' & -> & Hreq).
      exists s'. rewrite Hreq. cbn. by rewrite <- !app_assoc.
Qed.

Lemma parse_loop_aborts (total : Z) (pre : list string) (url : string)
    (post : list string) (e : exn) :
  Forall (completes w) pre ->
  fate w url = Aborts e ->
  forall i results errors s,
  exists s',
    parse_loop w total i (pre ++ url :: post) results errors s = (Raise e, s')
    /\ requested s' = requested s ++ pre ++ [url].
Proof.
  intros Hpre Hurl.
  induction Hpre as [|u pre Hu _ IH]; intros i results errors s.
  - cbn [app]. rewrite parse_loop_step, Hurl. by eexists.
  - cbn [app]. rewrite parse_loop_step.
    unfold completes in Hu.
    destruct (fate w u) as [e'|entry|items]; [done| |].
    + destruct (IH (S i) results (errors ++ [entry]) (after_get total i u s))
        as (s' & -> & Hreq).
      exists s'. rewrite Hreq. cbn. by rewrite <- !app_assoc.
    + destruct (IH (S i) (results ++ items) errors (after_get total i u s))
        as (s' & -> & Hreq).
      exists s'. rewrite Hreq. cbn. by rewrite <- !app_assoc.
Qed.

(** Either every URL completes, or there is a first one that aborts. *)
Lemma first_abort (urls : list string) :
  Forall (completes w) urls
  \/ exists pre url post e,
       urls = pre ++ url :: post /\ Forall (completes w) pre /\ fate w url = Aborts e.
Proof.
  induction urls as [|u urls IH]; [by left|].
  destruct (fate w u) as [e|entry|items] eqn:Hu.
  - right. by exists [], u, urls, e.
  - destruct IH as [Hall|(pre & url & post & e & -> & Hpre & Hurl)].
    + left. constructor; [|done]. unfold completes. by rewrite Hu.
    + right. exists (u :: pre), url, post, e. repeat split; [|done].
      constructor; [|done]. unfold completes. by rewrite Hu.
  - destruct IH as [Hall|(pre & url & post & e & -> & Hpre & Hurl)].
    + left. constructor; [|done]. unfold completes. by rewrite Hu.
    + right. exists (u :: pre), url, post, e. repeat split; [|done].
      constructor; [|done]. unfold completes. by rewrite Hu.
Qed.

Lemma fate_fails (url : string) (entry : error_entry) :
  fate w url = Fails entry <->
  err_url entry = url /\ request_failed w url (err_error entry).
Proof.
  unfold fate, request_failed, response_json. split.
  - destruct (remote w url) as [|r]; [done|].
    destruct (raise_for_status_cases r) as [[-> Hst]|[-> Hst]].
    + destruct (body r) as [payload|] eqn:Hbody; [|done].
      intros [= <-]. split; [done|]. by exists r.
    + unfold obind. destruct (body r) as [payload|]; [|done].
      by destruct (iterate payload).
  - intros [Hurl (r & -> & Hst & Hbody)].
    destruct (raise_for_status_cases r) as [[-> _]|[_ Hno]]; [|done].
    rewrite Hbody. destruct entry as [u p]. simpl in *. by subst.
Qed.

Lemma fate_succeeds (url : string) (items : list json) :
  fate w url = Succeeds items <-> request_succeeded w url items.
Proof.
  unfold fate, request_succeeded, response_json. split.
  - destruct (remote w url) as [|r]; [done|].
    destruct (raise_for_status_cases r) as [[-> Hst]|[-> Hst]].
    + by destruct (body r).
    + unfold obind. destruct (body r) as [payload|] eqn:Hbody; [|done].
      destruct (iterate payload) as [its|] eqn:Hiter; [|done].
      intros [= <-]. by exists r, payload.
  - intros (r & payload & -> & Hst & Hbody & Hiter).
    destruct (raise_for_status_cases r) as [[_ Hyes]|[-> _]]; [done|].
    rewrite Hbody. unfold obind. by rewrite Hiter.
Qed.
End Execution.

Lemma get_parse_response_returns (w : world) (urls : list string) (s : io_state)
    (out : list json * list error_entry) (s' : io_state) :
  get_parse_response w urls s = (Return out, s') ->
  Forall (completes w) urls
  /\ out = (concat (map (records_of w) urls), concat (map (errors_of w) urls))
  /\ requested s' = requested s ++ urls.
Proof.
  unfold get_parse_response. intros Hrun.
  destruct (first_abort w urls) as [Hall|(pre & url & post & e & -> & Hpre & Hurl)].
  - destruct (parse_loop_completes w (Z.of_nat (length urls) - 1) urls Hall 0 [] [] s)
      as (s1 & Hrun1 & Hreq).
    rewrite Hrun1 in Hrun. injection Hrun as <- <-. by cbn.
  - destruct (parse_loop_aborts w (Z.of_nat (length (pre ++ url :: post)) - 1)
                pre url post e Hpre Hurl 0 [] [] s) as (s1 & Hrun1 & _).
    rewrite Hrun1 in Hrun. discriminate.
Qed.

(** C10: when [get_parse_response] returns, every URL of the input has
    contributed to exactly one accumulator: either its response had a 4xx
    or 5xx status and it added the one error entry that holds the URL (and
    no record), or its response had another status and it added the items
    of its body (and no error entry). The results are the items of the
    successful responses concatenated in request order, the errors are the
    entries of the failed ones in request order, and there are at most as
    many errors as URLs. *)
Theorem get_parse_response_accumulators (w : world) (urls : list string)
    (s s' : io_state) (results : list json) (errors : list error_entry) :
  get_parse_response w urls s = (Return (results, errors), s') ->
  results = concat (map (records_of w) urls)
  /\ errors = concat (map (errors_of w) urls)
  /\ Forall (fun url =>
       (exists payload,
          request_failed w url payload
          /\ errors_of w url = [mk_error url payload] /\ records_of w url = [])
       \/ (exists items,
             request_succeeded w url items
             /\ records_of w url = items /\ errors_of w url = [])) urls
  /\ Forall (fun entry => err_url entry ∈ urls) errors
  /\ length errors <= length urls.
Proof.
  intros Hrun. apply get_parse_response_returns in Hrun as (Hall & [= -> ->] & _).
  split; [done|]. split; [done|].
  assert (Hone : forall url, length (errors_of w url) <= 1).
  { intros url. unfold errors_of. destruct (fate w url); cbn; lia. }
  split; [|split].
  - eapply Forall_impl; [exact Hall|]. intros url Hurl.
    unfold completes, errors_of, records_of in *.
    destruct (fate w url) as [e|entry|items] eqn:Hfate; [done| |].
    + left. apply fate_fails in Hfate as [Hentry Hfailed].
      exists (err_error entry). destruct entry as [u p]. simpl in *. by subst.
    + right. apply fate_succeeds in Hfate. by exists items.
  - clear Hall. induction urls as [|url urls IH]; cbn [map concat]; [constructor|].
    apply Forall_app. split.
    + unfold errors_of. destruct (fate w url) as [e|entry|items] eqn:Hfate;
        try constructor; [|constructor].
      apply fate_fails in Hfate as [-> _]. apply list_elem_of_here.
    + eapply Forall_impl; [exact IH|]. intros entry Hin.
      by apply list_elem_of_further.
  - clear Hall. induction urls as [|url urls IH]; cbn; [lia|].
    rewrite length_app. specialize (Hone url). lia.
Qed.

(** A URL's iteration completes exactly when its response is a failure
    with a JSON body or a success with an iterable JSON body. *)
Lemma completes_answered (w : world) (url : string) :
  completes w url
  <-> (exists payload, request_failed w url payload)
      \/ (exists items, request_succeeded w url items).
Proof.
  unfold completes. split.
  - destruct (fate w url) as [e|entry|items] eqn:Hfate; [done| |]; intros _.
    + left. apply fate_fails in Hfate as [_ Hfailed]. by eexists.
    + right. apply fate_succeeds in Hfate. by eexists.
  - intros [[payload Hfailed]|[items Hsucceeded]].
    + assert (Hfate : fate w url = Fails (mk_error url payload)) by by apply fate_fails.
      by rewrite Hfate.
    + apply fate_succeeds in Hsucceeded. by rewrite Hsucceeded.
Qed.

(** C8: every URL is requested at most once, in list order, and a run that
    returns has requested each exactly once. The only exception the loop
    handles is the HTTP status error: a response with a 4xx or 5xx status
    and a JSON body puts its error entry into the returned error list, at
    its place in request order, adds no record, and the run goes on through
    the remaining URLs. At the first URL whose iteration raises anything
    else, the call raises that exception and requests nothing further:
    [ConnectionError] when the transport fails, [JSONDecodeError] when the
    body of a response is not JSON. *)
Theorem get_parse_response_single_attempt (w : world) (urls : list string)
    (s : io_state) :
  (exists k,
     requested (snd (get_parse_response w urls s)) = requested s ++ take k urls
     /\ (forall out, fst (get_parse_response w urls s) = Return out -> k = length urls))
  /\ (forall pre url post e,
        urls = pre ++ url :: post ->
        Forall (completes w) pre ->
        fate w url = Aborts e ->
        fst (get_parse_response w urls s) = Raise e
        /\ requested (snd (get_parse_response w urls s)) = requested s ++ pre ++ [url])
  /\ (forall url, remote w url = Unreachable -> fate w url = Aborts ConnectionError)
  /\ (forall url r,
        remote w url = Responded r ->
        ~ (400 <= status_code r < 600)%Z ->
        body r = None ->
        fate w url = Aborts JSONDecodeError)
  /\ (forall url payload,
        request_failed w url payload -> fate w url = Fails (mk_error url payload))
  /\ (forall pre url post payload,
        urls = pre ++ url :: post ->
        Forall (fun u => (exists p, request_failed w u p)
                         \/ (exists items, request_succeeded w u items)) (pre ++ post) ->
        request_failed w url payload ->
        exists results errors s',
          get_parse_response w urls s = (Return (results, errors), s')
          /\ errors = concat (map (errors_of w) pre)
                      ++ mk_error url payload :: concat (map (errors_of w) post)
          /\ results = concat (map (records_of w) pre) ++ concat (map (records_of w) post)
          /\ requested s' = requested s ++ pre ++ url :: post
          /\ (Forall (fun u => exists items, request_succeeded w u items) (pre ++ post) ->
              errors = [mk_error url payload]))
  /\ (forall pre url post,
        urls = pre ++ url :: post ->
        Forall (fun u => (exists p, request_failed w u p)
                         \/ (exists items, request_succeeded w u items)) pre ->
        (remote w url = Unreachable ->
         fst (get_parse_response w urls s) = Raise ConnectionError
         /\ requested (snd (get_parse_response w urls s)) = requested s ++ pre ++ [url])
        /\ (forall r,
              remote w url = Responded r ->
              body r = None ->
              fst (get_parse_response w urls s) = Raise JSONDecodeError
              /\ requested (snd (get_parse_response w urls s))
                 = requested s ++ pre ++ [url])).
Proof.
  assert (Habort : forall pre url post e,
    urls = pre ++ url :: post ->
    Forall (completes w) pre ->
    fate w url = Aborts e ->
    fst (get_parse_response w urls s) = Raise e
    /\ requested (snd (get_parse_response w urls s)) = requested s ++ pre ++ [url]).
  { intros pre url post e -> Hpre Hurl. unfold get_parse_response.
    destruct (parse_loop_aborts w (Z.of_nat (length (pre ++ url :: post)) - 1)
                pre url post e Hpre Hurl 0 [] [] s) as (s1 & -> & Hreq).
    done. }
  assert (Hanswered : forall us,
    Forall (fun u => (exists p, request_failed w u p)
                     \/ (exists items, request_succeeded w u items)) us ->
    Forall (completes w) us).
  { intros us Hus. eapply Forall_impl; [exact Hus|]. intros u. apply completes_answered. }
  assert (Hsucceeded : forall us,
    Forall (fun u => exists items, request_succeeded w u items) us ->
    concat (map (errors_of w) us) = []).
  { induction 1 as [|u us [items Hu] _ IH]; [done|].
    apply fate_succeeds in Hu. cbn [map concat]. unfold errors_of at 1.
    by rewrite Hu, IH. }
  split; [|split; [exact Habort|]].
  - destruct (first_abort w urls) as [Hall|(pre & url & post & e & Heq & Hpre & Hurl)].
    + exists (length urls). unfold get_parse_response.
      destruct (parse_loop_completes w (Z.of_nat (length urls) - 1) urls Hall 0 [] [] s)
        as (s1 & -> & Hreq).
      cbn. by rewrite firstn_all.
    + destruct (Habort pre url post e Heq Hpre Hurl) as [Hout Hreq].
      exists (S (length pre)). rewrite Hreq. split.
      * subst urls.
        replace (pre ++ url :: post) with ((pre ++ [url]) ++ post)
          by (by rewrite <- app_assoc).
        rewrite take_app_length'; [done|].
        rewrite length_app. cbn. lia.
      * intros out Hret. rewrite Hout in Hret. discriminate.
  - split; [|split; [|split; [|split]]].
    + intros url Hurl. unfold fate. by rewrite Hurl.
    + intros url r Hurl Hst Hbody. unfold fate. rewrite Hurl.
      destruct (raise_for_status_cases r) as [[_ Hyes]|[-> _]]; [done|].
      unfold response_json. by rewrite Hbody.
    + intros url payload Hfailed. by apply fate_fails.
    + intros pre url post payload -> Hothers Hfailed.
      assert (Hfate : fate w url = Fails (mk_error url payload)) by by apply fate_fails.
      apply Forall_app in Hothers as Hparts. destruct Hparts as [Hpre Hpost].
      assert (Hall : Forall (completes w) (pre ++ url :: post)).
      { apply Forall_app. split; [by apply Hanswered|].
        constructor; [|by apply Hanswered]. unfold completes. by rewrite Hfate. }
      unfold get_parse_response.
      destruct (parse_loop_completes w (Z.of_nat (length (pre ++ url :: post)) - 1)
                  _ Hall 0 [] [] s) as (s' & -> & Hreq).
      eexists _, _, s'. split; [reflexivity|].
      cbn [app]. rewrite !map_app, !concat_app. cbn [map concat].
      assert (Herr : errors_of w url = [mk_error url payload])
        by (unfold errors_of; by rewrite Hfate).
      assert (Hrec : records_of w url = [])
        by (unfold records_of; by rewrite Hfate).
      rewrite !Herr, !Hrec. cbn [app].
      split; [done|]. split; [done|]. split; [exact Hreq|].
      intros Hsucc. apply Forall_app in Hsucc as [Hspre Hspost].
      by rewrite (Hsucceeded _ Hspre), (Hsucceeded _ Hspost).
    + intros pre url post Heq Hpre. apply Hanswered in Hpre. split.
      * intros Hurl. apply (Habort pre url post ConnectionError Heq Hpre).
        unfold fate. by rewrite Hurl.
      * intros r Hurl Hbody. apply (Habort pre url post JSONDecodeError Heq Hpre).
        unfold fate, response_json. rewrite Hurl, Hbody.
        by destruct (raise_for_status_cases r) as [[-> _]|[-> _]].
Qed.

(** Failure isolation as far as the code provides it: one request that
    fails with a JSON error body, among requests that complete, costs the
    others nothing. *)
Lemma partial_failure_isolation (w : world) (pre post : list string) (url : string)
    (payload : json) (s : io_state) :
  Forall (fun u => exists items, request_succeeded w u items) (pre ++ post) ->
  request_failed w url payload ->
  fst (get_parse_response w (pre ++ url :: post) s)
  = Return (concat (map (records_of w) (pre ++ post)), [mk_error url payload])
  /\ fst (get_parse_response w (pre ++ post) s)
     = Return (concat (map (records_of w) (pre ++ post)), [])
  /\ requested (snd (get_parse_response w (pre ++ url :: post) s))
     = requested s ++ pre ++ url :: post.
Proof.
  intros Hothers Hfailed.
  assert (Hfate : fate w url = Fails (mk_error url payload)) by by apply fate_fails.
  assert (Hsucc : forall u, (exists items, request_succeeded w u items) ->
                            completes w u /\ errors_of w u = []).
  { intros u [items Hu]. apply fate_succeeds in Hu.
    unfold completes, errors_of. by rewrite Hu. }
  assert (Hno_errors : forall us,
    Forall (fun u => exists items, request_succeeded w u items) us ->
    Forall (completes w) us /\ concat (map (errors_of w) us) = []).
  { induction 1 as [|u us Hu _ [IH1 IH2]]; [done|].
    destruct (Hsucc u Hu) as [Hc He]. split; [by constructor|].
    cbn. by rewrite He, IH2. }
  apply Forall_app in Hothers as Hparts. destruct Hparts as [Hpre Hpost].
  destruct (Hno_errors _ Hpre) as [Hcpre Hepre].
  destruct (Hno_errors _ Hpost) as [Hcpost Hepost].
  destruct (Hno_errors _ Hothers) as [Hcall Heall].
  assert (Hcomplete : Forall (completes w) (pre ++ url :: post)).
  { apply Forall_app. split; [done|]. constructor; [|done].
    unfold completes. by rewrite Hfate. }
  unfold get_parse_response.
  destruct (parse_loop_completes w (Z.of_nat (length (pre ++ url :: post)) - 1)
              _ Hcomplete 0 [] [] s) as (s1 & -> & Hreq1).
  destruct (parse_loop_completes w (Z.of_nat (length (pre ++ post)) - 1)
              _ Hcall 0 [] [] s) as (s2 & -> & Hreq2).
  cbn [fst snd app]. rewrite Heall, Hreq1.
  rewrite !map_app, !concat_app. cbn [map concat].
  rewrite Hepre, Hepost. unfold records_of at 2, errors_of at 1. rewrite Hfate.
  done.
Qed.

(** C4 (evaluation of the code where it departs from the claim): with one
    succeeding request and one whose 502 response has a body that is not
    JSON, [get_parse_response] raises [JSONDecodeError] from the handler of
    the HTTP error: no result list and no error list are returned, in
    either order of the two requests, and a request after the failing one
    is not issued. Alone, the succeeding request returns its records; with
    a JSON error body the failure is isolated. *)
Theorem failed_request_without_json_body_aborts :
  get_parse_response Example.w ["https://ok"; "https://bad"] fresh
  = (Raise JSONDecodeError,
     after_get 1 1 "https://bad" (after_get 1 0 "https://ok" fresh))
  /\ get_parse_response Example.w ["https://bad"; "https://ok"] fresh
     = (Raise JSONDecodeError, after_get 1 0 "https://bad" fresh)
  /\ fst (get_parse_response Example.w ["https://ok"] fresh)
     = Return (Example.records_US, [])
  /\ fst (get_parse_response Example.w ["https://ok"; Example.url_CA] fresh)
     = Return (Example.records_US, [mk_error Example.url_CA Example.error_CA]).
Proof. repeat split; vm_compute; reflexivity. Qed.

(** ** Assembling the table *)

Lemma index_of_Some (name : string) (labels : list string) (i : nat) :
  index_of name labels = Some i -> labels !! i = Some name.
Proof.
  revert i. induction labels as [|c labels IH]; intros i; cbn [index_of]; [done|].
  destruct (String.eqb_spec c name) as [->|Hne].
  - by intros [= <-].
  - destruct (index_of name labels) as [j|]; [|done].
    intros [= <-]. by apply IH.
Qed.

Lemma index_of_None (name : string) (labels : list string) :
  index_of name labels = None -> name ∉ labels.
Proof.
  induction labels as [|c labels IH]; cbn [index_of]; [intros _; apply not_elem_of_nil|].
  destruct (String.eqb_spec c name) as [->|Hne]; [done|].
  destruct (index_of name labels) as [j|]; [done|].
  intros _. apply not_elem_of_cons. split; [congruence|by apply IH].
Qed.

Lemma has_column_elem_of (data : DataFrame) (name : string) :
  has_column data name = true <-> name ∈ columns data.
Proof.
  unfold has_column. destruct (index_of name (columns data)) as [i|] eqn:Hi.
  - split; [intros _|done]. apply index_of_Some in Hi.
    by apply list_elem_of_lookup_2 in Hi.
  - split; [done|]. intros Hin. by apply index_of_None in Hi.
Qed.

Lemma getitem_columns (data : DataFrame) (names : list string) (out : DataFrame) :
  getitem data names = Return out ->
  columns out = names /\ length (rows out) = length (rows data).
Proof.
  unfold getitem. destruct (indices_of names (columns data)) as [idx|]; [|done].
  cbn [obind]. intros [= <-]. cbn. by rewrite length_map.
Qed.

Lemma getitem_requires (data : DataFrame) (names : list string) (out : DataFrame) :
  getitem data names = Return out -> Forall (fun n => n ∈ columns data) names.
Proof.
  unfold getitem.
  destruct (indices_of names (columns data)) as [idx|] eqn:Hidx; [|done].
  intros _. revert idx Hidx.
  induction names as [|n names IH]; intros idx; cbn [indices_of]; [constructor|].
  destruct (index_of n (columns data)) as [i|] eqn:Hi; [|done].
  destruct (indices_of names (columns data)) as [idx'|]; [|done].
  intros _. constructor; [|by eapply IH].
  apply index_of_Some in Hi. by apply list_elem_of_lookup_2 in Hi.
Qed.

Lemma add_labels_origin (labels : list string) (fields : list (string * json))
    (m : string) :
  m ∈ add_labels labels fields -> m ∈ labels \/ m ∈ map fst fields.
Proof.
  unfold add_labels. revert labels.
  induction fields as [|kv fields IH]; intros labels; cbn [foldl map]; [by left|].
  intros Hin. apply IH in Hin as [Hin|Hin].
  - destruct (has_column _ _).
    + by left.
    + apply elem_of_app in Hin as [Hin|Hin]; [by left|].
      apply list_elem_of_singleton in Hin as ->. right. apply list_elem_of_here.
  - right. by apply list_elem_of_further.
Qed.

Lemma frame_labels_origin (records : list (list (string * json)))
    (labels : list string) (m : string) :
  m ∈ foldl add_labels labels records ->
  m ∈ labels \/ exists fields, fields ∈ records /\ m ∈ map fst fields.
Proof.
  revert labels.
  induction records as [|r records IH]; intros labels; cbn [foldl]; [by left|].
  intros Hin. apply IH in Hin as [Hin|(fields & Hf & Hm)].
  - apply add_labels_origin in Hin as [Hin|Hin]; [by left|].
    right. exists r. split; [apply list_elem_of_here|done].
  - right. exists fields. split; [by apply list_elem_of_further|done].
Qed.

Lemma all_records_origin (items : list json) (records : list (list (string * json)))
    (fields : list (string * json)) :
  all_records items = Return records -> fields ∈ records -> JObj fields ∈ items.
Proof.
  revert records.
  induction items as [|item items IH]; intros records; cbn [all_records].
  - intros [= <-] Hin. by apply not_elem_of_nil in Hin.
  - destruct item as [| | | | |fs]; try done. cbn [record_fields obind].
    destruct (all_records items) as [rs|]; [|done]. cbn [obind].
    intros [= <-] Hin. apply elem_of_cons in Hin as [->|Hin].
    + apply list_elem_of_here.
    + apply list_elem_of_further. by eapply IH.
Qed.

Lemma del_column_columns (data out : DataFrame) (name m : string) :
  del_column data name = Return out -> m ∈ columns out -> m ∈ columns data.
Proof.
  unfold del_column. destruct (index_of name (columns data)) as [i|]; [|done].
  intros [= <-]. cbn [columns]. intros Hin.
  by apply list_elem_of_delete_inv in Hin.
Qed.

(** Where a column of the joined data comes from: a key of a fetched
    record, a column of the station metadata, or a label both sides have,
    with the suffix of the merge. *)
Lemma joined_data_columns (refs : references) (result : list json)
    (data : DataFrame) (m : string) :
  joined_data refs result = Return data ->
  m ∈ columns data ->
  (exists fields, JObj fields ∈ result /\ m ∈ map fst fields)
  \/ m ∈ columns (load_dataset_stations refs)
  \/ exists c, m = c +:+ "_x" \/ m = c +:+ "_y".
Proof.
  unfold joined_data, pd_DataFrame.
  destruct (all_records result) as [records|] eqn:Hrecords; [|done]. cbn [obind].
  set (left := mk_frame _ _).
  destruct (merge_left left (load_dataset_stations refs) "STATION" "ID")
    as [merged|] eqn:Hmerge; [|done]. cbn [obind].
  destruct (del_column merged "ID") as [data1|] eqn:Hdel1; [|done]. cbn [obind].
  intros Hdel2 Hin.
  eapply del_column_columns in Hin; [|exact Hdel2].
  eapply del_column_columns in Hin; [|exact Hdel1].
  unfold merge_left in Hmerge.
  destruct (index_of "ID" _) as [ri|]; [|done].
  destruct (index_of "STATION" _) as [li|]; [|done].
  injection Hmerge as <-. cbn [columns] in Hin.
  apply elem_of_app in Hin as [Hin|Hin];
    apply list_elem_of_fmap in Hin as (c & -> & Hc); unfold suffixed;
    destruct (has_column _ c); try (right; right; exists c; tauto).
  - left. subst left. cbn [columns] in Hc.
    apply frame_labels_origin in Hc as [Hc|(fields & Hf & Hm)].
    + by apply not_elem_of_nil in Hc.
    + exists fields. split; [by eapply all_records_origin|done].
  - right. by left.
Qed.

Lemma noaa_api_connector_returns (w : world) (countries : list string)
    (start_date : datetime) (end_date : option datetime)
    (metrics : option (list string)) (s s' : io_state) (table : DataFrame) :
  noaa_api_connector w countries start_date end_date metrics s = (Return table, s') ->
  exists s0 result data,
    country_loop w countries start_date end_date metrics [] s0 = (Return result, s')
    /\ requested s0 = requested s
    /\ joined_data (refdata w) result = Return data
    /\ ordered_columns data metrics = Return table.
Proof.
  unfold noaa_api_connector, bind at 1, os_path_isfile.
  intros Hrun.
  assert (Hloop : exists s0,
    requested s0 = requested s /\
    (do result <- country_loop w countries start_date end_date metrics [] ;
     lift (obind (joined_data (refdata w) result) (fun data =>
           ordered_columns data metrics))) s0 = (Return table, s')).
  { destruct (bool_decide _); unfold bind at 1 in Hrun.
    - exists s. done.
    - eexists. split; [|exact Hrun]. done. }
  destruct Hloop as (s0 & Hreq & Hrest). clear Hrun.
  unfold bind, lift in Hrest.
  destruct (country_loop w countries start_date end_date metrics [] s0)
    as [[result|e] s1] eqn:Hloop; [|done].
  destruct (joined_data (refdata w) result) as [data|] eqn:Hjoined; [|done].
  cbn [obind] in Hrest. injection Hrest as Htable <-.
  by exists s0, result, data.
Qed.

Lemma log_errors_returns (errors : list error_entry) (s : io_state) :
  exists s', log_errors errors s = (Return tt, s') /\ requested s' = requested s.
Proof.
  revert s. induction errors as [|error errors IH]; intros s; cbn [log_errors].
  - by exists s.
  - unfold bind, logging.
    destruct (IH (mk_io (requested s) (logged s ++ [(INFO, Obj error)])
                        (downloads s) (files s))) as (s' & -> & Hreq).
    by exists s'.
Qed.

(** A returning run of the country loop has collected the records of
    every country, in order, over requests that all completed. *)
Lemma country_loop_returns (w : world) (start_date : datetime)
    (end_date : option datetime) (metrics : option (list string))
    (countries : list string) :
  forall (result : list json) (s s' : io_state) (out : list json),
  country_loop w countries start_date end_date metrics result s = (Return out, s') ->
  out = result ++ concat (map (fetched_records w start_date end_date metrics) countries)
  /\ requested s'
     = requested s ++ concat (map (urls_of w start_date end_date metrics) countries)
  /\ Forall (fun country =>
       exists urls,
         get_request_urls w country start_date end_date metrics = Return urls
         /\ Forall (completes w) urls) countries.
Proof.
  induction countries as [|country countries IH]; intros result s s' out;
    cbn [country_loop map concat].
  - intros [= <- <-]. by rewrite !app_nil_r.
  - unfold bind at 1, logging at 1. unfold bind at 1, lift at 1.
    unfold fetched_records at 1, urls_of at 1 2.
    destruct (get_request_urls w country start_date end_date metrics)
      as [urls|] eqn:Hurls; [|done].
    unfold bind at 1.
    destruct (get_parse_response w urls _) as [[[country_results errors]|e] s1] eqn:Hparse;
      [|done].
    apply get_parse_response_returns in Hparse as (Hall & [= -> ->] & Hreq1).
    cbn [fst snd]. unfold bind at 1.
    set (log := match concat (map (errors_of w) urls) with [] => _ | _ => _ end).
    assert (Hlog : exists s2, log s1 = (Return tt, s2) /\ requested s2 = requested s1).
    { subst log. destruct (concat (map (errors_of w) urls)) as [|error errors].
      - by exists s1.
      - unfold bind, logging.
        destruct (log_errors_returns (error :: errors)
                    (mk_io (requested s1)
                       (logged s1 ++
                          [(INFO, Fmt "The following errors where found during the operation:" [])])
                       (downloads s1) (files s1))) as (s2 & -> & Hreq2).
        by exists s2. }
    destruct Hlog as (s2 & -> & Hreq2).
    intros Hrest. apply IH in Hrest as (-> & Hreq & Hcountries).
    split; [by rewrite <- app_assoc|].
    split.
    + rewrite Hreq, Hreq2, Hreq1. cbn [requested]. by rewrite <- app_assoc.
    + constructor; [|done]. by exists urls.
Qed.

Lemma filter_sublist {A} (f : A -> bool) (l : list A) : List.filter f l `sublist_of` l.
Proof.
  induction l as [|x l IH]; cbn [List.filter]; [constructor|].
  destruct (f x); by constructor.
Qed.

(** C6: the table the driver returns has the nine fixed columns first,
    then the requested metrics (the default list when none was given) that
    are columns of the joined data, in the order requested; a metric that
    is no key of any fetched record (and no column or suffixed label of the
    station metadata) is left out, and the call still returns. *)
Theorem noaa_api_connector_column_order (w : world) (countries : list string)
    (start_date : datetime) (end_date : option datetime)
    (metrics : option (list string)) (s s' : io_state) (table : DataFrame) :
  noaa_api_connector w countries start_date end_date metrics s = (Return table, s') ->
  let requested_metrics := default DEFAULT_METRICS metrics in
  let result := concat (map (fetched_records w start_date end_date metrics) countries) in
  exists data,
    joined_data (refdata w) result = Return data
    /\ columns table = FIXED_COLUMNS ++ List.filter (has_column data) requested_metrics
    /\ FIXED_COLUMNS
       = ["DATE"; "STATION"; "LATITUDE"; "LONGITUDE"; "ELEVATION"; "NAME";
          "GSN FLAG"; "HCN/CRN FLAG"; "WMO ID"]
    /\ List.filter (has_column data) requested_metrics `sublist_of` requested_metrics
    /\ (forall m, m ∈ List.filter (has_column data) requested_metrics
                  <-> m ∈ requested_metrics /\ m ∈ columns data)
    /\ (forall m,
          (forall fields, JObj fields ∈ result -> m ∉ map fst fields) ->
          m ∉ columns (load_dataset_stations (refdata w)) ->
          (forall c, m <> c +:+ "_x" /\ m <> c +:+ "_y") ->
          m ∉ List.filter (has_column data) requested_metrics).
Proof.
  intros Hrun requested_metrics result.
  apply noaa_api_connector_returns in Hrun
    as (s0 & result' & data & Hloop & _ & Hjoined & Htable).
  apply country_loop_returns in Hloop as (Hresult & _ & _).
  cbn [app] in Hresult. subst result'. fold result in Hjoined.
  assert (Hfilter : forall m, m ∈ List.filter (has_column data) requested_metrics
                              <-> m ∈ requested_metrics /\ m ∈ columns data).
  { intros m. rewrite list_elem_of_In, filter_In, <- list_elem_of_In.
    by rewrite has_column_elem_of. }
  exists data. split; [exact Hjoined|].
  split.
  { unfold ordered_columns in Htable. apply getitem_columns in Htable as [-> _].
    done. }
  split; [done|]. split; [apply filter_sublist|]. split; [exact Hfilter|].
  intros m Hrecords Hstations Hsuffix Hin.
  apply Hfilter in Hin as [_ Hin].
  destruct (joined_data_columns _ _ _ _ Hjoined Hin)
    as [(fields & Hf & Hm)|[Hst|(c & [Hc|Hc])]].
  - by apply (Hrecords fields).
  - done.
  - by destruct (Hsuffix c).
  - by destruct (Hsuffix c).
Qed.

(** ** Determinism *)

Lemma bind_outcome_ext {A B} (c1 c2 : IO A) (k1 k2 : A -> IO B) (s1 s2 : io_state) :
  fst (c1 s1) = fst (c2 s2) ->
  (forall a t1 t2, fst (k1 a t1) = fst (k2 a t2)) ->
  fst (bind c1 k1 s1) = fst (bind c2 k2 s2).
Proof.
  unfold bind. intros Hc Hk.
  destruct (c1 s1) as [[a1|e1] t1], (c2 s2) as [[a2|e2] t2]; cbn [fst] in *;
    try discriminate; injection Hc as <-; [apply Hk|done].
Qed.

Lemma log_errors_outcome (errors : list error_entry) (s : io_state) :
  fst (log_errors errors s) = Return tt.
Proof. destruct (log_errors_returns errors s) as (s' & -> & _). done. Qed.

Section Determinism.
Variables w1 w2 : world.
Hypothesis same_references : refdata w1 = refdata w2.
Hypothesis same_responses : forall url, remote w1 url = remote w2 url.

Lemma fate_ext (url : string) : fate w1 url = fate w2 url.
Proof. unfold fate. by rewrite same_responses. Qed.

Lemma parse_loop_outcome_ext (urls : list string) :
  forall total1 total2 i1 i2 results errors s1 s2,
  fst (parse_loop w1 total1 i1 urls results errors s1)
  = fst (parse_loop w2 total2 i2 urls results errors s2).
Proof.
  induction urls as [|url urls IH]; intros; [done|].
  rewrite !parse_loop_step, fate_ext.
  destruct (fate w2 url); [done|apply IH|apply IH].
Qed.

Lemma get_request_urls_ext (country : string) (start_date : datetime)
    (end_date : option datetime) (metrics : option (list string)) :
  (end_date = None -> dt_date (now w1) = dt_date (now w2)) ->
  get_request_urls w1 country start_date end_date metrics
  = get_request_urls w2 country start_date end_date metrics.
Proof.
  intros Hnow. unfold get_request_urls. rewrite same_references.
  destruct end_date as [e|]; [done|]. by rewrite Hnow.
Qed.

Lemma country_loop_outcome_ext (start_date : datetime) (end_date : option datetime)
    (metrics : option (list string)) (countries : list string) :
  (end_date = None -> dt_date (now w1) = dt_date (now w2)) ->
  forall result s1 s2,
  fst (country_loop w1 countries start_date end_date metrics result s1)
  = fst (country_loop w2 countries start_date end_date metrics result s2).
Proof.
  intros Hnow.
  induction countries as [|country countries IH]; intros result s1 s2; [done|].
  cbn [country_loop].
  apply bind_outcome_ext; [done|]. intros _ t1 t2.
  apply bind_outcome_ext.
  { unfold lift. cbn [fst]. by apply get_request_urls_ext. }
  intros urls u1 u2.
  apply bind_outcome_ext; [apply parse_loop_outcome_ext|].
  intros parsed v1 v2.
  apply bind_outcome_ext; [|intros; apply IH].
  destruct (snd parsed); [done|].
  apply bind_outcome_ext; [done|]. intros.
  by rewrite !log_errors_outcome.
Qed.
End Determinism.

(** The driver is its loop and assembly, run after the file check. *)
Lemma noaa_api_connector_after_check (w : world) (countries : list string)
    (start_date : datetime) (end_date : option datetime)
    (metrics : option (list string)) (s : io_state) :
  exists s0,
    requested s0 = requested s
    /\ noaa_api_connector w countries start_date end_date metrics s
       = (do result <- country_loop w countries start_date end_date metrics [];
          lift (obind (joined_data (refdata w) result)
                      (fun data => ordered_columns data metrics))) s0.
Proof.
  unfold noaa_api_connector, bind at 1, os_path_isfile.
  destruct (bool_decide _); unfold bind at 1.
  - by exists s.
  - eexists. split; [|reflexivity]. reflexivity.
Qed.

(** ** What the driver returns *)

(** C1 (evaluation of the code where it departs from the claim): the
    driver returns the table alone. With the Canadian request failing and
    the US request succeeding, the value returned is the table of the US
    records, the same value a call for "US" alone returns; the error entry
    of the failed request is written to the log and is no part of the
    value. When no request brings a record, the merge raises and no table
    is returned at all. *)
Theorem noaa_api_connector_returns_table_only :
  let run countries :=
    noaa_api_connector Example.w countries Example.start_date
                       (Some Example.end_date) (Some ["SNOW"; "TMAX"]) fresh in
  fst (run ["CA"; "US"]) = Return Example.table_US
  /\ fst (run ["US"]) = Return Example.table_US
  /\ requested (snd (run ["CA"; "US"])) = [Example.url_CA; Example.url_US]
  /\ errors_of Example.w Example.url_CA = [mk_error Example.url_CA Example.error_CA]
  /\ List.filter (fun record => match snd record with Obj _ => true | Fmt _ _ => false end)
                 (logged (snd (run ["CA"; "US"])))
     = [(INFO, Obj (mk_error Example.url_CA Example.error_CA))]
  /\ fst (run ["CA"]) = Raise (KeyError "STATION").
Proof. repeat split; vm_compute; reflexivity. Qed.

(** ** The theorems at work in the example world *)

Lemma get_stations_by_country_known_witness :
  COUNTRY_AND_TERRITORY_CODES Example.refs !! "US" = Some ["US"; "XX"; "PR"]
  /\ get_stations_by_country Example.refs "US" = Return ["S1"; "S2"; "S2"; "S3"].
Proof.
  assert (H : COUNTRY_AND_TERRITORY_CODES Example.refs !! "US" = Some ["US"; "XX"; "PR"])
    by (vm_compute; reflexivity).
  split; [exact H|].
  destruct (get_stations_by_country_known Example.refs "US" ["US"; "XX"; "PR"] H)
    as [Hstations _].
  rewrite Hstations. vm_compute. reflexivity.
Defined.

(** C5 as stated does not hold: the exception raised for the unknown code
    "ZZ" is not of a class [UnknownCountryError]. *)
Lemma unknown_country_error_class :
  ~ exists e, get_stations_by_country Example.refs "ZZ" = Raise e
              /\ exn_class e = "UnknownCountryError".
Proof.
  intros (e & Hraise & Hclass). vm_compute in Hraise.
  injection Hraise as <-. discriminate Hclass.
Qed.

Lemma unknown_country_raises_witness :
  COUNTRY_AND_TERRITORY_CODES (refdata Example.w) !! "ZZ" = None
  /\ get_request_urls Example.w "ZZ" Example.start_date None None
     = Raise (ValueError "Wrong country code %s" "ZZ")
  /\ requested (snd (noaa_api_connector Example.w ["ZZ"; "US"] Example.start_date
                       None None fresh))
     = [].
Proof.
  assert (H : COUNTRY_AND_TERRITORY_CODES (refdata Example.w) !! "ZZ" = None)
    by (vm_compute; reflexivity).
  split; [exact H|].
  destruct (unknown_country_raises Example.w "ZZ" Example.start_date None None H)
    as (_ & _ & _ & Hurls & _ & Hdriver).
  split; [exact Hurls|].
  destruct (Hdriver ["US"] fresh) as [_ Hrequested]. exact Hrequested.
Defined.

Lemma get_request_urls_batches_witness :
  get_stations_by_country (refdata Example.w) "RS"
  = Return (map (fun i => "R" +:+ decimal i) (seq 0 120))
  /\ exists chunks,
       get_request_urls Example.w "RS" Example.start_date (Some Example.end_date) None
       = Return (map (fun chunk =>
                        request_url (join "," chunk) "2020-03-01" "2020-03-30"
                                    DEFAULT_METRICS) chunks)
       /\ length chunks = 3
       /\ concat chunks = map (fun i => "R" +:+ decimal i) (seq 0 120).
Proof.
  assert (H : get_stations_by_country (refdata Example.w) "RS"
              = Return (map (fun i => "R" +:+ decimal i) (seq 0 120)))
    by (vm_compute; reflexivity).
  split; [exact H|].
  destruct (get_request_urls_batches Example.w "RS" Example.start_date
              (Some Example.end_date) None _ H)
    as (chunks & Hurls & Hlen & _ & Hconcat & _).
  exists chunks. split; [exact Hurls|]. split; [exact Hlen|exact Hconcat].
Defined.

Lemma get_parse_response_accumulators_witness :
  get_parse_response Example.w ["https://ok"; Example.url_CA] fresh
  = (Return (Example.records_US, [mk_error Example.url_CA Example.error_CA]),
     snd (get_parse_response Example.w ["https://ok"; Example.url_CA] fresh))
  /\ Example.records_US
     = concat (map (records_of Example.w) ["https://ok"; Example.url_CA])
  /\ length [mk_error Example.url_CA Example.error_CA] <= 2.
Proof.
  assert (H : get_parse_response Example.w ["https://ok"; Example.url_CA] fresh
              = (Return (Example.records_US, [mk_error Example.url_CA Example.error_CA]),
                 snd (get_parse_response Example.w ["https://ok"; Example.url_CA] fresh)))
    by (vm_compute; reflexivity).
  split; [exact H|].
  destruct (get_parse_response_accumulators _ _ _ _ _ _ H)
    as (Hresults & _ & _ & _ & Hlength).
  split; [exact Hresults|exact Hlength].
Defined.

Lemma get_parse_response_single_attempt_witness :
  (exists results s',
     get_parse_response Example.w ["https://ok"; Example.url_CA; "https://ok"] fresh
     = (Return (results, [mk_error Example.url_CA Example.error_CA]), s')
     /\ results = Example.records_US ++ Example.records_US
     /\ requested s' = ["https://ok"; Example.url_CA; "https://ok"])
  /\ fst (get_parse_response Example.w ["https://ok"; "https://down"; "https://ok"] fresh)
     = Raise ConnectionError
  /\ requested (snd (get_parse_response Example.w
                       ["https://ok"; "https://down"; "https://ok"] fresh))
     = ["https://ok"; "https://down"].
Proof.
  assert (Hok : request_succeeded Example.w "https://ok" Example.records_US)
    by (apply fate_succeeds; vm_compute; reflexivity).
  assert (Hfailed : request_failed Example.w Example.url_CA Example.error_CA).
  { apply (fate_fails Example.w Example.url_CA
             (mk_error Example.url_CA Example.error_CA)).
    vm_compute. reflexivity. }
  assert (Hdown : remote Example.w "https://down" = Unreachable)
    by (vm_compute; reflexivity).
  split.
  - destruct (get_parse_response_single_attempt Example.w
                ["https://ok"; Example.url_CA; "https://ok"] fresh)
      as (_ & _ & _ & _ & _ & Hcaught & _).
    destruct (Hcaught ["https://ok"] Example.url_CA ["https://ok"] Example.error_CA
                eq_refl) as (results & errors & s' & Hrun & Herrors & Hresults & Hreq & Hone).
    + apply Forall_cons. split; [right; by eexists|].
      apply Forall_cons. split; [right; by eexists|]. apply Forall_nil_2.
    + exact Hfailed.
    + exists results, s'. rewrite Hone in Hrun.
      * split; [exact Hrun|]. split; [|exact Hreq].
        rewrite Hresults. vm_compute. reflexivity.
      * apply Forall_cons. split; [by eexists|].
        apply Forall_cons. split; [by eexists|]. apply Forall_nil_2.
  - destruct (get_parse_response_single_attempt Example.w
                ["https://ok"; "https://down"; "https://ok"] fresh)
      as (_ & _ & _ & _ & _ & _ & Hraw).
    destruct (Hraw ["https://ok"] "https://down" ["https://ok"] eq_refl) as [Hconn _].
    + apply Forall_cons. split; [right; by eexists|]. apply Forall_nil_2.
    + exact (Hconn Hdown).
Defined.

Lemma noaa_api_connector_column_order_witness :
  noaa_api_connector Example.w ["CA"; "US"] Example.start_date
                     (Some Example.end_date) (Some ["SNOW"; "TMAX"]) fresh
  = (Return Example.table_US,
     snd (noaa_api_connector Example.w ["CA"; "US"] Example.start_date
                             (Some Example.end_date) (Some ["SNOW"; "TMAX"]) fresh))
  /\ exists data,
       columns Example.table_US
       = FIXED_COLUMNS ++ List.filter (has_column data) ["SNOW"; "TMAX"]
       /\ "SNOW" ∉ List.filter (has_column data) ["SNOW"; "TMAX"].
Proof.
  assert (H : noaa_api_connector Example.w ["CA"; "US"] Example.start_date
                (Some Example.end_date) (Some ["SNOW"; "TMAX"]) fresh
              = (Return Example.table_US,
                 snd (noaa_api_connector Example.w ["CA"; "US"] Example.start_date
                        (Some Example.end_date) (Some ["SNOW"; "TMAX"]) fresh)))
    by (vm_compute; reflexivity).
  split; [exact H|].
  destruct (noaa_api_connector_column_order _ _ _ _ _ _ _ _ H)
    as (data & _ & Hcolumns & _ & _ & _ & Habsent).
  exists data. split; [exact Hcolumns|].
  apply Habsent.
  - intros fields Hin. vm_compute in Hin.
    repeat (apply elem_of_cons in Hin as [Hin|Hin];
            [injection Hin as ->; compute_done|]).
    by apply not_elem_of_nil in Hin.
  - compute_done.
  - intros c. split; intros Hc;
      repeat (destruct c as [|? c]; cbn in Hc; try discriminate Hc).
Defined.

(** * Further properties of the connector *)

(** ** What a run of the request loop leaves behind *)

Lemma seq_progress {B} (f : nat -> B) (i k : nat) :
  f i :: map (fun j => f (S i + j)) (seq 0 k) = map (fun j => f (i + j)) (seq 0 (S k)).
Proof.
  cbn [seq map]. rewrite Nat.add_0_r. f_equal.
  rewrite <- seq_shift, map_map. apply map_ext. intros j. f_equal. lia.
Qed.

Lemma parse_loop_effects (w : world) (total : Z) (urls : list string) :
  forall i results errors s,
  exists k,
    k <= length urls
    /\ requested (snd (parse_loop w total i urls results errors s))
       = requested s ++ take k urls
    /\ logged (snd (parse_loop w total i urls results errors s))
       = logged s
         ++ map (fun j => (DEBUG, Fmt "Making request %s / %s"
                                      [ArgInt (Z.of_nat (i + j) + 1); ArgInt (total + 1)]))
                (seq 0 k)
    /\ downloads (snd (parse_loop w total i urls results errors s)) = downloads s
    /\ files (snd (parse_loop w total i urls results errors s)) = files s
    /\ (forall out, fst (parse_loop w total i urls results errors s) = Return out ->
                    k = length urls).
Proof.
  induction urls as [|url urls IH]; intros i results errors s.
  - exists 0. cbn. by rewrite !app_nil_r.
  - rewrite parse_loop_step.
    destruct (fate w url) as [e|entry|items].
    + exists 1. cbn [snd fst after_get requested logged downloads files length take seq map].
      rewrite Nat.add_0_r. repeat split; try done; lia.
    + destruct (IH (S i) results (errors ++ [entry]) (after_get total i url s))
        as (k & Hk & Hreq & Hlog & Hdl & Hfiles & Hret).
      exists (S k). rewrite Hreq, Hlog, Hdl, Hfiles.
      unfold after_get. cbn [requested logged downloads files length firstn take].
      rewrite <- !app_assoc. cbn [app].
      rewrite (seq_progress (fun n => (DEBUG, Fmt "Making request %s / %s"
                                               [ArgInt (Z.of_nat n + 1); ArgInt (total + 1)]))).
      repeat split; [lia|]. intros out Hout. f_equal. by eapply Hret.
    + destruct (IH (S i) (results ++ items) errors (after_get total i url s))
        as (k & Hk & Hreq & Hlog & Hdl & Hfiles & Hret).
      exists (S k). rewrite Hreq, Hlog, Hdl, Hfiles.
      unfold after_get. cbn [requested logged downloads files length firstn take].
      rewrite <- !app_assoc. cbn [app].
      rewrite (seq_progress (fun n => (DEBUG, Fmt "Making request %s / %s"
                                               [ArgInt (Z.of_nat n + 1); ArgInt (total + 1)]))).
      repeat split; [lia|]. intros out Hout. f_equal. by eapply Hret.
Qed.

(** X1: whatever its outcome, a call of [get_parse_response] on [n] URLs
    that has issued [k] requests has logged exactly the [k] progress
    records "Making request 1 / n" ... "Making request k / n", in order,
    after what was logged before; it has started no download and touched
    no local file; and when it returns, [k = n]. *)
Theorem get_parse_response_progress_log (w : world) (urls : list string)
    (s : io_state) :
  exists k,
    k <= length urls
    /\ requested (snd (get_parse_response w urls s)) = requested s ++ take k urls
    /\ logged (snd (get_parse_response w urls s))
       = logged s ++ map (progress_record (length urls)) (seq 0 k)
    /\ downloads (snd (get_parse_response w urls s)) = downloads s
    /\ files (snd (get_parse_response w urls s)) = files s
    /\ (forall out, fst (get_parse_response w urls s) = Return out -> k = length urls).
Proof.
  unfold get_parse_response.
  destruct (parse_loop_effects w (Z.of_nat (length urls) - 1) urls 0 [] [] s)
    as (k & Hk & Hreq & Hlog & Hdl & Hfiles & Hret).
  exists k. rewrite Hreq, Hlog, Hdl, Hfiles.
  repeat split; [exact Hk| |exact Hret].
  f_equal. apply map_ext. intros j. unfold progress_record. cbn [Nat.add].
  by rewrite Z.sub_add.
Qed.

(** ** When the request loop returns, and how runs compose *)

(** X2: [get_parse_response] returns exactly when every URL is answered
    with a body that is JSON and, unless the status is 4xx or 5xx, iterable;
    it then returns the records and error entries of all URLs in order and
    has requested each URL once. *)
Theorem get_parse_response_returns_iff (w : world) (urls : list string) (s : io_state) :
  ((exists out s', get_parse_response w urls s = (Return out, s'))
   <-> Forall (fun url =>
         (exists payload, request_failed w url payload)
         \/ (exists items, request_succeeded w url items)) urls)
  /\ (Forall (fun url =>
         (exists payload, request_failed w url payload)
         \/ (exists items, request_succeeded w url items)) urls ->
      fst (get_parse_response w urls s)
      = Return (concat (map (records_of w) urls), concat (map (errors_of w) urls))
      /\ requested (snd (get_parse_response w urls s)) = requested s ++ urls).
Proof.
  assert (Hforward : Forall (fun url =>
         (exists payload, request_failed w url payload)
         \/ (exists items, request_succeeded w url items)) urls ->
      exists s', get_parse_response w urls s
        = (Return (concat (map (records_of w) urls), concat (map (errors_of w) urls)), s')
      /\ requested s' = requested s ++ urls).
  { intros Hall.
    assert (Hcomplete : Forall (completes w) urls).
    { eapply Forall_impl; [exact Hall|]. intros url. apply completes_answered. }
    unfold get_parse_response.
    destruct (parse_loop_completes w (Z.of_nat (length urls) - 1) urls Hcomplete 0 [] [] s)
      as (s' & Hrun & Hreq).
    by exists s'. }
  split; [split|].
  - intros (out & s' & Hrun).
    apply get_parse_response_returns in Hrun as (Hall & _ & _).
    eapply Forall_impl; [exact Hall|]. intros url. apply completes_answered.
  - intros Hall. destruct (Hforward Hall) as (s' & Hrun & _). by eexists _, _.
  - intros Hall. destruct (Hforward Hall) as (s' & -> & Hreq). done.
Qed.

(** X3: runs compose along concatenation of the URL list. If the runs on
    two lists return, the run on their concatenation returns the
    concatenated results and the concatenated errors; if the run on the
    first list raises, the run on the concatenation raises the same
    exception, whatever follows. *)
Theorem get_parse_response_app (w : world) (urls1 urls2 : list string) (s : io_state) :
  (forall s1 s2 out1 out2 s1' s2',
     get_parse_response w urls1 s1 = (Return out1, s1') ->
     get_parse_response w urls2 s2 = (Return out2, s2') ->
     fst (get_parse_response w (urls1 ++ urls2) s)
     = Return (fst out1 ++ fst out2, snd out1 ++ snd out2))
  /\ (forall s1 e,
        fst (get_parse_response w urls1 s1) = Raise e ->
        fst (get_parse_response w (urls1 ++ urls2) s) = Raise e).
Proof.
  split.
  - intros s1 s2 out1 out2 s1' s2' Hrun1 Hrun2.
    apply get_parse_response_returns in Hrun1 as (Hall1 & -> & _).
    apply get_parse_response_returns in Hrun2 as (Hall2 & -> & _).
    assert (Hall : Forall (completes w) (urls1 ++ urls2)) by by apply Forall_app.
    unfold get_parse_response.
    destruct (parse_loop_completes w (Z.of_nat (length (urls1 ++ urls2)) - 1)
                _ Hall 0 [] [] s) as (s' & -> & _).
    cbn [fst snd app]. by rewrite !map_app, !concat_app.
  - intros s1 e Hrun1.
    destruct (first_abort w urls1) as [Hall|(pre & url & post & e' & -> & Hpre & Hurl)].
    + unfold get_parse_response in Hrun1.
      destruct (parse_loop_completes w (Z.of_nat (length urls1) - 1)
                  _ Hall 0 [] [] s1) as (s' & Hrun & _).
      rewrite Hrun in Hrun1. discriminate Hrun1.
    + unfold get_parse_response in *.
      destruct (parse_loop_aborts w (Z.of_nat (length (pre ++ url :: post)) - 1)
                  pre url post e' Hpre Hurl 0 [] [] s1) as (s' & Hrun & _).
      rewrite Hrun in Hrun1. injection Hrun1 as ->.
      rewrite <- app_assoc. cbn [app].
      destruct (parse_loop_aborts w
                  (Z.of_nat (length (pre ++ url :: post ++ urls2)) - 1)
                  pre url (post ++ urls2) e Hpre Hurl 0 [] [] s) as (s'' & -> & _).
      done.
Qed.

Lemma concat_map_Permutation {A B} (f : A -> list B) (l1 l2 : list A) :
  l1 ≡ₚ l2 -> concat (map f l1) ≡ₚ concat (map f l2).
Proof.
  induction 1 as [|x l1 l2 _ IH|x y l|l1 l2 l3 _ IH1 _ IH2]; cbn [map concat].
  - done.
  - by rewrite IH.
  - rewrite !app_assoc. f_equiv. apply Permutation_app_comm.
  - by rewrite IH1.
Qed.

(** X4: the order of the requests matters only for the order of the
    output. If the run on a list of URLs returns, so does the run on any
    permutation of the list, with the same results and the same errors up
    to order. *)
Theorem get_parse_response_Permutation (w : world) (urls1 urls2 : list string)
    (s1 s2 s1' : io_state) (results1 : list json) (errors1 : list error_entry) :
  urls1 ≡ₚ urls2 ->
  get_parse_response w urls1 s1 = (Return (results1, errors1), s1') ->
  exists results2 errors2 s2',
    get_parse_response w urls2 s2 = (Return (results2, errors2), s2')
    /\ results1 ≡ₚ results2
    /\ errors1 ≡ₚ errors2.
Proof.
  intros Hperm Hrun1.
  apply get_parse_response_returns in Hrun1 as (Hall1 & [= -> ->] & _).
  assert (Hall2 : Forall (completes w) urls2) by by rewrite <- Hperm.
  unfold get_parse_response.
  destruct (parse_loop_completes w (Z.of_nat (length urls2) - 1) _ Hall2 0 [] [] s2)
    as (s2' & -> & _).
  eexists _, _, _. split; [reflexivity|].
  cbn [app]. split; by apply concat_map_Permutation.
Qed.

(** ** The loop over the countries *)

Lemma log_errors_run (errors : list error_entry) (s : io_state) :
  log_errors errors s
  = (Return tt,
     mk_io (requested s) (logged s ++ map (fun error => (INFO, Obj error)) errors)
           (downloads s) (files s)).
Proof.
  revert s. induction errors as [|error errors IH]; intros s; cbn [log_errors map].
  - rewrite app_nil_r. by destruct s.
  - unfold bind, logging. rewrite IH. cbn [requested logged downloads files].
    by rewrite <- app_assoc.
Qed.

(** One iteration of the loop, for a country that resolves. *)
Lemma country_loop_step (w : world) (start_date : datetime)
    (end_date : option datetime) (metrics : option (list string))
    (country : string) (countries : list string) (urls : list string)
    (result : list json) (s : io_state) :
  get_request_urls w country start_date end_date metrics = Return urls ->
  country_loop w (country :: countries) start_date end_date metrics result s
  = match get_parse_response w urls (after_announcement country s) with
    | (Return parsed, s1) =>
        country_loop w countries start_date end_date metrics
                     (result ++ fst parsed) (after_errors (snd parsed) s1)
    | (Raise e, s1) => (Raise e, s1)
    end.
Proof.
  intros Hurls. cbn [country_loop].
  unfold bind at 1, logging at 1. unfold bind at 1, lift at 1. rewrite Hurls.
  unfold bind at 1. fold (after_announcement country s).
  destruct (get_parse_response w urls (after_announcement country s))
    as [[parsed|e] s1]; [|done].
  unfold bind at 1.
  destruct (snd parsed) as [|error errors] eqn:Herrors.
  - done.
  - unfold bind at 1, logging at 1. rewrite log_errors_run.
    cbn [requested logged downloads files after_errors].
    by rewrite <- app_assoc.
Qed.

Lemma country_loop_unresolved (w : world) (start_date : datetime)
    (end_date : option datetime) (metrics : option (list string))
    (country : string) (countries : list string) (e : exn)
    (result : list json) (s : io_state) :
  get_request_urls w country start_date end_date metrics = Raise e ->
  country_loop w (country :: countries) start_date end_date metrics result s
  = (Raise e, after_announcement country s).
Proof.
  intros Hurls. cbn [country_loop].
  unfold bind at 1, logging at 1. unfold bind at 1, lift at 1. by rewrite Hurls.
Qed.

Lemma filter_progress_records (n k : nat) :
  List.filter is_error_record (map (progress_record n) (seq 0 k)) = [].
Proof. induction (seq 0 k) as [|j js IH]; [done|]. cbn. exact IH. Qed.

Lemma filter_error_records (errors : list error_entry) :
  List.filter is_error_record (map (fun error => (INFO, Obj error)) errors)
  = map (fun error => (INFO, Obj error)) errors.
Proof. induction errors as [|e es IH]; [done|]. cbn. by rewrite IH. Qed.

Lemma after_errors_effects (errors : list error_entry) (s : io_state) :
  requested (after_errors errors s) = requested s
  /\ downloads (after_errors errors s) = downloads s
  /\ files (after_errors errors s) = files s
  /\ List.filter is_error_record (logged (after_errors errors s))
     = List.filter is_error_record (logged s)
       ++ map (fun error => (INFO, Obj error)) errors.
Proof.
  destruct errors as [|error errors]; cbn [after_errors].
  - by rewrite app_nil_r.
  - cbn [requested logged downloads files]. repeat split.
    rewrite List.filter_app. f_equal.
    change (List.filter is_error_record
              (map (fun error0 => (INFO, Obj error0)) (error :: errors))
            = map (fun error0 => (INFO, Obj error0)) (error :: errors)).
    apply filter_error_records.
Qed.

(** The loop on countries that all complete. *)
Lemma country_loop_completes (w : world) (start_date : datetime)
    (end_date : option datetime) (metrics : option (list string))
    (countries : list string) :
  Forall (country_completes w start_date end_date metrics) countries ->
  forall result s,
  exists s',
    country_loop w countries start_date end_date metrics result s
    = (Return (result
               ++ concat (map (fetched_records w start_date end_date metrics) countries)),
       s')
    /\ requested s'
       = requested s ++ concat (map (urls_of w start_date end_date metrics) countries)
    /\ downloads s' = downloads s
    /\ files s' = files s
    /\ List.filter is_error_record (logged s')
       = List.filter is_error_record (logged s)
         ++ map (fun error => (INFO, Obj error))
                (concat (map (country_errors w start_date end_date metrics) countries)).
Proof.
  induction 1 as [|country countries (urls & Hurls & Hall) _ IH]; intros result s.
  - exists s. cbn. by rewrite !app_nil_r.
  - rewrite (country_loop_step _ _ _ _ _ _ urls) by done.
    destruct (get_parse_response_progress_log w urls (after_announcement country s))
      as (k & _ & _ & Hlog & Hdl & Hfiles & _).
    unfold get_parse_response in *.
    destruct (parse_loop_completes w (Z.of_nat (length urls) - 1) urls Hall 0 [] []
                (after_announcement country s)) as (s1 & Hrun & Hreq1).
    rewrite Hrun in Hlog, Hdl, Hfiles |- *. cbn [fst snd app] in *.
    destruct (after_errors_effects (concat (map (errors_of w) urls)) s1)
      as (Hreq2 & Hdl2 & Hfiles2 & Hlog2).
    destruct (IH (result ++ concat (map (records_of w) urls))
                 (after_errors (concat (map (errors_of w) urls)) s1))
      as (s' & -> & Hreq & Hdl' & Hfiles' & Hlog').
    exists s'. cbn [map concat].
    assert (Hcountry_urls : urls_of w start_date end_date metrics country = urls)
      by (unfold urls_of; by rewrite Hurls).
    assert (Hcountry_records :
      fetched_records w start_date end_date metrics country
      = concat (map (records_of w) urls))
      by (unfold fetched_records; by rewrite Hcountry_urls).
    assert (Hcountry_errors :
      country_errors w start_date end_date metrics country
      = concat (map (errors_of w) urls))
      by (unfold country_errors; by rewrite Hcountry_urls).
    rewrite Hcountry_urls, Hcountry_records, Hcountry_errors.
    rewrite Hreq, Hreq2, Hreq1, Hdl', Hdl2, Hdl, Hfiles', Hfiles2, Hfiles, Hlog', Hlog2, Hlog.
    cbn [after_announcement requested logged downloads files].
    rewrite !List.filter_app, filter_progress_records. cbn [List.filter is_error_record snd].
    rewrite !app_nil_r, map_app, <- !app_assoc. done.
Qed.

(** The loop stops at the first country that fails to resolve or has a
    request that aborts. *)
Lemma country_loop_aborts (w : world) (start_date : datetime)
    (end_date : option datetime) (metrics : option (list string))
    (pre : list string) (country : string) (post : list string) :
  Forall (country_completes w start_date end_date metrics) pre ->
  forall result s,
  (forall e,
     get_request_urls w country start_date end_date metrics = Raise e ->
     exists s',
       country_loop w (pre ++ country :: post) start_date end_date metrics result s
       = (Raise e, s')
       /\ requested s'
          = requested s ++ concat (map (urls_of w start_date end_date metrics) pre))
  /\ (forall upre url upost e,
        get_request_urls w country start_date end_date metrics
        = Return (upre ++ url :: upost) ->
        Forall (completes w) upre ->
        fate w url = Aborts e ->
        exists s',
          country_loop w (pre ++ country :: post) start_date end_date metrics result s
          = (Raise e, s')
          /\ requested s'
             = requested s ++ concat (map (urls_of w start_date end_date metrics) pre)
               ++ upre ++ [url]).
Proof.
  induction 1 as [|c pre (urls & Hurls & Hall) _ IH]; intros result s.
  - cbn [app map concat]. split.
    + intros e Hraise. rewrite country_loop_unresolved with (e := e) by done.
      eexists. split; [reflexivity|]. cbn. by rewrite app_nil_r.
    + intros upre url upost e Hurls Hupre Hurl.
      rewrite (country_loop_step _ _ _ _ _ _ (upre ++ url :: upost)) by done.
      unfold get_parse_response.
      destruct (parse_loop_aborts w (Z.of_nat (length (upre ++ url :: upost)) - 1)
                  upre url upost e Hupre Hurl 0 [] [] (after_announcement country s))
        as (s' & -> & Hreq).
      by exists s'.
  - cbn [app map concat].
    rewrite (country_loop_step _ _ _ _ _ _ urls) by done.
    unfold get_parse_response.
    destruct (parse_loop_completes w (Z.of_nat (length urls) - 1) urls Hall 0 [] []
                (after_announcement c s)) as (s1 & -> & Hreq1).
    cbn [fst snd app].
    destruct (after_errors_effects (concat (map (errors_of w) urls)) s1)
      as (Hreq2 & _).
    destruct (IH (result ++ concat (map (records_of w) urls))
                 (after_errors (concat (map (errors_of w) urls)) s1))
      as [IHraise IHabort].
    assert (Hcountry_urls : urls_of w start_date end_date metrics c = urls)
      by (unfold urls_of; by rewrite Hurls).
    rewrite !Hcountry_urls.
    split.
    + intros e Hraise. destruct (IHraise e Hraise) as (s' & -> & Hreq).
      exists s'. split; [done|]. rewrite Hreq, Hreq2, Hreq1.
      cbn [after_announcement requested]. by rewrite <- !app_assoc.
    + intros upre url upost e Hcurls Hupre Hurl.
      destruct (IHabort upre url upost e Hcurls Hupre Hurl) as (s' & -> & Hreq).
      exists s'. split; [done|]. rewrite Hreq, Hreq2, Hreq1.
      cbn [after_announcement requested]. by rewrite <- !app_assoc.
Qed.

(** ** The driver as a whole *)

Lemma noaa_api_connector_unfold (w : world) (countries : list string)
    (start_date : datetime) (end_date : option datetime)
    (metrics : option (list string)) (s : io_state) :
  noaa_api_connector w countries start_date end_date metrics s
  = match country_loop w countries start_date end_date metrics []
                       (after_check (refdata w) s) with
    | (Return result, s') =>
        (obind (joined_data (refdata w) result)
               (fun data => ordered_columns data metrics), s')
    | (Raise e, s') => (Raise e, s')
    end.
Proof.
  unfold noaa_api_connector, bind at 1, os_path_isfile, after_check.
  destruct (bool_decide _); unfold bind at 1; cbn [ret download_noaa_files];
    unfold bind, lift;
    by destruct (country_loop w countries start_date end_date metrics [] _) as [[?|?] ?].
Qed.

Lemma after_check_effects (refs : references) (s : io_state) :
  requested (after_check refs s) = requested s
  /\ logged (after_check refs s) = logged s
  /\ downloads (after_check refs s)
     = downloads s ++ (if bool_decide (metadata_file refs ∈ files s) then [] else [false]).
Proof.
  unfold after_check. destruct (bool_decide _); cbn; by rewrite ?app_nil_r.
Qed.

Lemma country_loop_frame (w : world) (start_date : datetime)
    (end_date : option datetime) (metrics : option (list string))
    (countries : list string) :
  forall result s,
    downloads (snd (country_loop w countries start_date end_date metrics result s))
    = downloads s
    /\ files (snd (country_loop w countries start_date end_date metrics result s))
       = files s.
Proof.
  induction countries as [|country countries IH]; intros result s; [done|].
  destruct (get_request_urls w country start_date end_date metrics) as [urls|e] eqn:Hurls.
  - rewrite (country_loop_step _ _ _ _ _ _ urls) by done.
    destruct (get_parse_response_progress_log w urls (after_announcement country s))
      as (k & _ & _ & _ & Hdl & Hfiles & _).
    destruct (get_parse_response w urls (after_announcement country s))
      as [[parsed|e] s1]; cbn [snd] in *; [|done].
    destruct (IH (result ++ fst parsed) (after_errors (snd parsed) s1)) as [-> ->].
    destruct (after_errors_effects (snd parsed) s1) as (_ & -> & -> & _).
    by rewrite Hdl, Hfiles.
  - by rewrite country_loop_unresolved with (e := e).
Qed.

(** X5: the driver calls [download_noaa_files] at most once in a call,
    with [large_files=False], and exactly when the file
    [DATA_DIRECTORY/stations_metadata.txt] is absent at the start; this
    holds whether the call returns or raises. *)
Theorem noaa_api_connector_download (w : world) (countries : list string)
    (start_date : datetime) (end_date : option datetime)
    (metrics : option (list string)) (s : io_state) :
  downloads (snd (noaa_api_connector w countries start_date end_date metrics s))
  = downloads s
    ++ (if bool_decide (DATA_DIRECTORY (refdata w) +:+ "/stations_metadata.txt" ∈ files s)
        then [] else [false]).
Proof.
  rewrite noaa_api_connector_unfold.
  destruct (country_loop_frame w start_date end_date metrics countries []
              (after_check (refdata w) s)) as [Hdl _].
  destruct (after_check_effects (refdata w) s) as (_ & _ & Hcheck).
  destruct (country_loop w countries start_date end_date metrics []
              (after_check (refdata w) s)) as [[result|e] s'];
    cbn [snd] in *; by rewrite Hdl, Hcheck.
Qed.

Lemma noaa_api_connector_returns_inv (w : world) (countries : list string)
    (start_date : datetime) (end_date : option datetime)
    (metrics : option (list string)) (s s' : io_state) (table : DataFrame) :
  noaa_api_connector w countries start_date end_date metrics s = (Return table, s') ->
  Forall (country_completes w start_date end_date metrics) countries
  /\ country_loop w countries start_date end_date metrics [] (after_check (refdata w) s)
     = (Return (concat (map (fetched_records w start_date end_date metrics) countries)),
        s')
  /\ obind (joined_data (refdata w)
              (concat (map (fetched_records w start_date end_date metrics) countries)))
           (fun data => ordered_columns data metrics)
     = Return table.
Proof.
  rewrite noaa_api_connector_unfold.
  destruct (country_loop w countries start_date end_date metrics []
              (after_check (refdata w) s)) as [[result|e] s1] eqn:Hloop; [|done].
  intros [= Htable <-].
  apply country_loop_returns in Hloop as Hinv. destruct Hinv as (-> & _ & Hall).
  done.
Qed.

(** X6: when the driver returns a table, it has issued exactly the
    requests of all countries, in country order and, within a country, in
    batch order, each once; and the table is the assembly (lines 183-199)
    of the records of the successful responses, in that same order. *)
Theorem noaa_api_connector_requests_and_records (w : world) (countries : list string)
    (start_date : datetime) (end_date : option datetime)
    (metrics : option (list string)) (s s' : io_state) (table : DataFrame) :
  noaa_api_connector w countries start_date end_date metrics s = (Return table, s') ->
  requested s'
  = requested s ++ concat (map (urls_of w start_date end_date metrics) countries)
  /\ Forall (fun country =>
       exists urls,
         get_request_urls w country start_date end_date metrics = Return urls
         /\ Forall (fun url =>
              (exists payload, request_failed w url payload)
              \/ (exists items, request_succeeded w url items)) urls) countries
  /\ exists data,
       joined_data (refdata w)
         (concat (map (fun country =>
                         concat (map (records_of w)
                                     (urls_of w start_date end_date metrics country)))
                      countries))
       = Return data
       /\ ordered_columns data metrics = Return table.
Proof.
  intros Hrun. apply noaa_api_connector_returns_inv in Hrun as (Hall & Hloop & Htable).
  split; [|split].
  - apply country_loop_returns in Hloop as (_ & -> & _).
    by destruct (after_check_effects (refdata w) s) as (-> & _).
  - eapply Forall_impl; [exact Hall|]. intros country (urls & Hurls & Hcomplete).
    exists urls. split; [done|].
    eapply Forall_impl; [exact Hcomplete|]. intros url. apply completes_answered.
  - change (fun country => concat (map (records_of w)
                                      (urls_of w start_date end_date metrics country)))
      with (fetched_records w start_date end_date metrics).
    destruct (joined_data (refdata w) _) as [data|]; [|done].
    by exists data.
Qed.

(** X7: when the driver returns a table, the error entries it has logged
    are exactly the error entries of the failed requests of all countries,
    each once and in request order: no failure goes unlogged. *)
Theorem noaa_api_connector_error_log (w : world) (countries : list string)
    (start_date : datetime) (end_date : option datetime)
    (metrics : option (list string)) (s s' : io_state) (table : DataFrame) :
  noaa_api_connector w countries start_date end_date metrics s = (Return table, s') ->
  List.filter is_error_record (logged s')
  = List.filter is_error_record (logged s)
    ++ map (fun error => (INFO, Obj error))
           (concat (map (fun country =>
                           concat (map (errors_of w)
                                       (urls_of w start_date end_date metrics country)))
                        countries)).
Proof.
  intros Hrun. apply noaa_api_connector_returns_inv in Hrun as (Hall & Hloop & _).
  destruct (country_loop_completes w start_date end_date metrics countries Hall []
              (after_check (refdata w) s)) as (s1 & Hloop1 & _ & _ & _ & Hlog).
  rewrite Hloop in Hloop1. injection Hloop1 as <-.
  destruct (after_check_effects (refdata w) s) as (_ & Hlogged & _).
  by rewrite Hlog, Hlogged.
Qed.

Lemma noaa_api_connector_loop_aborts (w : world) (countries : list string)
    (start_date : datetime) (end_date : option datetime)
    (metrics : option (list string)) (s s' : io_state) (e : exn) :
  country_loop w countries start_date end_date metrics [] (after_check (refdata w) s)
  = (Raise e, s') ->
  noaa_api_connector w countries start_date end_date metrics s = (Raise e, s').
Proof. intros Hloop. by rewrite noaa_api_connector_unfold, Hloop. Qed.

(** X8: an unknown country code anywhere in the list makes the driver raise
    the resolver's [ValueError], once the countries before it have been
    processed: their requests, and only theirs, have been issued, and what
    they fetched is not returned. *)
Theorem noaa_api_connector_unknown_country_later (w : world)
    (pre : list string) (country : string) (post : list string)
    (start_date : datetime) (end_date : option datetime)
    (metrics : option (list string)) (s : io_state) :
  Forall (country_completes w start_date end_date metrics) pre ->
  COUNTRY_AND_TERRITORY_CODES (refdata w) !! country = None ->
  fst (noaa_api_connector w (pre ++ country :: post) start_date end_date metrics s)
  = Raise (ValueError "Wrong country code %s" country)
  /\ requested (snd (noaa_api_connector w (pre ++ country :: post) start_date end_date
                       metrics s))
     = requested s ++ concat (map (urls_of w start_date end_date metrics) pre).
Proof.
  intros Hpre Hunknown.
  assert (Hurls : get_request_urls w country start_date end_date metrics
                  = Raise (ValueError "Wrong country code %s" country)).
  { unfold get_request_urls, get_stations_by_country. by rewrite Hunknown. }
  destruct (country_loop_aborts w start_date end_date metrics pre country post Hpre []
              (after_check (refdata w) s)) as [Hraise _].
  destruct (Hraise _ Hurls) as (s' & Hloop & Hreq).
  rewrite (noaa_api_connector_loop_aborts _ _ _ _ _ _ _ _ Hloop). cbn [fst snd].
  split; [done|]. rewrite Hreq.
  by destruct (after_check_effects (refdata w) s) as (-> & _).
Qed.

(** X9: a request whose iteration raises (the transport fails, or the
    body is not JSON, or a body with a success status is not iterable)
    aborts the whole driver call with that exception: the requests issued
    are those of the earlier countries and of the country up to that URL,
    nothing later is requested, and no table is returned. *)
Theorem noaa_api_connector_request_aborts (w : world)
    (pre : list string) (country : string) (post : list string)
    (upre : list string) (url : string) (upost : list string) (e : exn)
    (start_date : datetime) (end_date : option datetime)
    (metrics : option (list string)) (s : io_state) :
  Forall (country_completes w start_date end_date metrics) pre ->
  get_request_urls w country start_date end_date metrics = Return (upre ++ url :: upost) ->
  Forall (completes w) upre ->
  fate w url = Aborts e ->
  fst (noaa_api_connector w (pre ++ country :: post) start_date end_date metrics s)
  = Raise e
  /\ requested (snd (noaa_api_connector w (pre ++ country :: post) start_date end_date
                       metrics s))
     = requested s ++ concat (map (urls_of w start_date end_date metrics) pre)
       ++ upre ++ [url].
Proof.
  intros Hpre Hurls Hupre Hurl.
  destruct (country_loop_aborts w start_date end_date metrics pre country post Hpre []
              (after_check (refdata w) s)) as [_ Habort].
  destruct (Habort upre url upost e Hurls Hupre Hurl) as (s' & Hloop & Hreq).
  rewrite (noaa_api_connector_loop_aborts _ _ _ _ _ _ _ _ Hloop). cbn [fst snd].
  split; [done|]. rewrite Hreq.
  by destruct (after_check_effects (refdata w) s) as (-> & _).
Qed.

(** X10: when every request completes but none brings a record (all
    requests failed, or the responses were empty lists), the driver raises
    instead of returning an empty table: [KeyError] for [STATION], the merge
    key the empty frame lacks (or for [ID] when the station metadata has no
    such column). *)
Theorem noaa_api_connector_no_records (w : world) (countries : list string)
    (start_date : datetime) (end_date : option datetime)
    (metrics : option (list string)) (s : io_state) :
  Forall (country_completes w start_date end_date metrics) countries ->
  concat (map (fetched_records w start_date end_date metrics) countries) = [] ->
  fst (noaa_api_connector w countries start_date end_date metrics s)
  = Raise (KeyError (if has_column (load_dataset_stations (refdata w)) "ID"
                     then "STATION" else "ID")).
Proof.
  intros Hall Hempty.
  destruct (country_loop_completes w start_date end_date metrics countries Hall []
              (after_check (refdata w) s)) as (s' & Hloop & _).
  rewrite noaa_api_connector_unfold, Hloop, Hempty. cbn [fst app].
  unfold joined_data, pd_DataFrame. cbn [all_records obind foldl map].
  unfold merge_left, has_column. cbn [columns].
  by destruct (index_of "ID" (columns (load_dataset_stations (refdata w)))).
Qed.

(** ** The shape and the content of the table *)

Lemma index_of_elem_of (name : string) (labels : list string) :
  name ∈ labels -> exists i, index_of name labels = Some i.
Proof.
  induction labels as [|c labels IH]; [by intros ?%not_elem_of_nil|].
  cbn [index_of]. destruct (String.eqb_spec c name) as [->|Hne]; [by eexists|].
  intros [->|Hin]%elem_of_cons; [done|].
  destruct (IH Hin) as [i ->]. by eexists.
Qed.

Lemma index_of_lt (name : string) (labels : list string) (i : nat) :
  index_of name labels = Some i -> i < length labels.
Proof.
  intros Hi. apply index_of_Some in Hi. by apply lookup_lt_Some in Hi.
Qed.

Lemma index_of_app (name : string) (l1 l2 : list string) :
  index_of name (l1 ++ l2)
  = match index_of name l1 with
    | Some i => Some i
    | None => option_map (Nat.add (length l1)) (index_of name l2)
    end.
Proof.
  induction l1 as [|c l1 IH]; cbn [app index_of length].
  - by destruct (index_of name l2).
  - destruct (String.eqb c name); [done|]. rewrite IH.
    destruct (index_of name l1); [done|]. by destruct (index_of name l2).
Qed.

Lemma suffixed_disjoint (sfx : string) (others labels : list string) :
  Forall (fun c => c ∉ others) labels ->
  map (suffixed sfx others) labels = labels.
Proof.
  induction 1 as [|c labels Hc _ IH]; [done|]. cbn [map]. rewrite IH. f_equal.
  unfold suffixed. destruct (has_column _ c) eqn:Hhas; [|done].
  apply has_column_elem_of in Hhas. done.
Qed.

Lemma indices_of_length (names labels : list string) (idx : list nat) :
  indices_of names labels = Return idx -> length idx = length names.
Proof.
  revert idx. induction names as [|n names IH]; intros idx; cbn [indices_of].
  - by intros [= <-].
  - destruct (index_of n labels); [|done].
    destruct (indices_of names labels) as [idx'|]; [|done]. cbn [obind].
    intros [= <-]. cbn. f_equal. by apply IH.
Qed.

Lemma indices_of_lookup (names labels : list string) (idx : list nat)
    (name : string) (k : nat) :
  indices_of names labels = Return idx ->
  index_of name names = Some k ->
  exists i, index_of name labels = Some i /\ idx !! k = Some i.
Proof.
  revert idx k. induction names as [|n names IH]; intros idx k; cbn [indices_of index_of].
  - done.
  - destruct (index_of n labels) as [i|] eqn:Hi; [|done].
    destruct (indices_of names labels) as [idx'|]; [|done]. cbn [obind].
    intros [= <-]. destruct (String.eqb_spec n name) as [->|Hne].
    + intros [= <-]. by exists i.
    + destruct (index_of name names) as [k'|]; [|done]. intros [= <-].
      destruct (IH idx' k' eq_refl eq_refl) as (i' & Hi' & Hk). by exists i'.
Qed.

Lemma getitem_column (data out : DataFrame) (names : list string) (name : string) :
  getitem data names = Return out ->
  name ∈ names ->
  column out name = column data name.
Proof.
  unfold getitem.
  destruct (indices_of names (columns data)) as [idx|] eqn:Hidx; [|done].
  cbn [obind]. intros [= <-] Hin.
  destruct (index_of_elem_of _ _ Hin) as [k Hk].
  destruct (indices_of_lookup _ _ _ _ _ Hidx Hk) as (i & Hi & Hik).
  unfold column. cbn [columns rows]. rewrite Hk, Hi. f_equal.
  rewrite map_map. apply map_ext. intros row.
  rewrite nth_lookup, list_lookup_fmap, Hik. cbn. done.
Qed.

Lemma nth_delete {B} (j i : nat) (row : list B) (d : B) :
  nth (if i <? j then i else i - 1) (delete j row) d = nth i row d \/ i = j.
Proof.
  destruct (Nat.eq_dec i j) as [->|Hne]; [by right|]. left.
  revert i j Hne. induction row as [|x row IH]; intros i j Hne.
  - cbn [delete list_delete].
    generalize (if i <? j then i else i - 1). intros k. by destruct k, i.
  - destruct j as [|j].
    + destruct i as [|i]; [done|]. cbn. by rewrite Nat.sub_0_r.
    + destruct i as [|i]; [done|]. cbn [delete list_delete].
      specialize (IH i j ltac:(lia)).
      change (S i <? S j) with (i <? j).
      destruct (Nat.ltb_spec i j) as [Hlt|Hge].
      * exact IH.
      * destruct i as [|i]; [lia|]. cbn in IH |- *. by rewrite Nat.sub_0_r in IH.
Qed.

Lemma index_of_delete (name c : string) (labels : list string) (j i : nat) :
  index_of name labels = Some j ->
  index_of c labels = Some i ->
  c <> name ->
  index_of c (delete j labels) = Some (if i <? j then i else i - 1) /\ i <> j.
Proof.
  revert j i. induction labels as [|h labels IH]; intros j i; cbn [index_of]; [done|].
  destruct (String.eqb_spec h name) as [->|Hhn].
  - intros [= <-]. destruct (String.eqb_spec name c) as [->|Hnc]; [done|].
    destruct (index_of c labels) as [i'|] eqn:Hc; [|done]. intros [= <-] _.
    change (delete 0 (name :: labels)) with labels.
    rewrite Hc. cbn. by rewrite Nat.sub_0_r.
  - destruct (index_of name labels) as [j'|] eqn:Hname; [|done]. intros [= <-].
    destruct (String.eqb_spec h c) as [->|Hhc].
    + intros [= <-] _.
      change (delete (S j') (c :: labels)) with (c :: delete j' labels).
      cbn [index_of]. rewrite String.eqb_refl. done.
    + destruct (index_of c labels) as [i'|] eqn:Hc; [|done]. intros [= <-] Hne.
      destruct (IH j' i' eq_refl eq_refl Hne) as [Hidx Hij].
      change (delete (S j') (h :: labels)) with (h :: delete j' labels).
      cbn [index_of].
      destruct (String.eqb_spec h c) as [|_]; [done|]. rewrite Hidx.
      change (S i' <? S j') with (i' <? j').
      split; [|lia]. cbn [option_map]. f_equal.
      destruct (Nat.ltb_spec i' j'); [done|]. lia.
Qed.

Lemma del_column_column (data out : DataFrame) (name c : string) :
  del_column data name = Return out ->
  c <> name ->
  c ∈ columns data ->
  column out c = column data c.
Proof.
  unfold del_column.
  destruct (index_of name (columns data)) as [j|] eqn:Hj; [|done].
  intros [= <-] Hne Hin.
  destruct (index_of_elem_of _ _ Hin) as [i Hi].
  destruct (index_of_delete _ _ _ _ _ Hj Hi Hne) as [Hidx Hij].
  unfold column. cbn [columns rows]. rewrite Hidx, Hi. f_equal.
  rewrite map_map. apply map_ext. intros row.
  by destruct (nth_delete j i row None).
Qed.

Lemma all_records_objects (items : list json) (records : list (list (string * json))) :
  all_records items = Return records -> items = map JObj records.
Proof.
  revert records. induction items as [|item items IH]; intros records; cbn [all_records].
  - by intros [= <-].
  - destruct item as [| | | | |fields]; try done. cbn [record_fields obind].
    destruct (all_records items) as [rs|]; [|done]. cbn [obind].
    intros [= <-]. cbn [map]. f_equal. by apply IH.
Qed.

Lemma add_labels_grows (labels : list string) (fields : list (string * json))
    (m : string) :
  m ∈ labels \/ m ∈ map fst fields -> m ∈ add_labels labels fields.
Proof.
  unfold add_labels. revert labels.
  induction fields as [|kv fields IH]; intros labels; cbn [foldl map].
  - intros [Hin|Hin]; [done|]. by apply not_elem_of_nil in Hin.
  - intros [Hin|Hin]; apply IH.
    + left. destruct (has_column _ _); [done|]. apply elem_of_app. by left.
    + apply elem_of_cons in Hin as [->|Hin]; [|by right].
      left. destruct (has_column _ _) eqn:Hhas.
      * by apply has_column_elem_of in Hhas.
      * apply elem_of_app. right. apply list_elem_of_here.
Qed.

Lemma frame_labels_grow (records : list (list (string * json)))
    (labels : list string) (m : string) :
  m ∈ labels \/ (exists fields, fields ∈ records /\ m ∈ map fst fields) ->
  m ∈ foldl add_labels labels records.
Proof.
  revert labels. induction records as [|r records IH]; intros labels; cbn [foldl].
  - intros [Hin|(fields & Hin & _)]; [done|]. by apply not_elem_of_nil in Hin.
  - intros [Hin|(fields & Hin & Hm)]; apply IH.
    + left. apply add_labels_grows. by left.
    + apply elem_of_cons in Hin as [->|Hin].
      * left. apply add_labels_grows. by right.
      * right. by exists fields.
Qed.

(** The frame of a list of records: its labels are the keys of the
    records, each row has one cell per label, and a column holds the
    record's values for its label. *)
Lemma pd_DataFrame_frame (result : list json) (data : DataFrame) :
  pd_DataFrame result = Return data ->
  exists records,
    result = map JObj records
    /\ length (rows data) = length records
    /\ Forall (fun row => length row = length (columns data)) (rows data)
    /\ (forall c, c ∈ columns data
                  <-> exists fields, fields ∈ records /\ c ∈ map fst fields)
    /\ (forall c, c ∈ columns data -> column data c = Some (map (field_cell c) records)).
Proof.
  unfold pd_DataFrame.
  destruct (all_records result) as [records|] eqn:Hrecords; [|done]. cbn [obind].
  intros [= <-]. exists records. cbn [columns rows].
  split; [by apply all_records_objects|]. split; [by rewrite length_map|].
  split; [|split].
  - apply Forall_forall. intros row Hrow.
    apply list_elem_of_fmap in Hrow as (r & -> & _). by rewrite length_map.
  - intros c. split.
    + intros Hin. apply frame_labels_origin in Hin as [Hin|Hin]; [|done].
      by apply not_elem_of_nil in Hin.
    + intros Hin. apply frame_labels_grow. by right.
  - intros c Hin. destruct (index_of_elem_of _ _ Hin) as [i Hi].
    unfold column. cbn [columns rows]. rewrite Hi. f_equal.
    rewrite map_map. apply map_ext. intros r.
    apply index_of_Some in Hi.
    rewrite nth_lookup, list_lookup_fmap, Hi. done.
Qed.

Lemma concat_singletons {A B} (g : A -> B) (f : A -> list B) (l : list A) :
  (forall x, f x = [g x]) -> concat (map f l) = map g l.
Proof.
  intros Hf. induction l as [|x l IH]; [done|]. cbn. by rewrite Hf, IH.
Qed.

Lemma concat_nonempty_length {A B} (f : A -> list B) (l : list A) :
  (forall x, 0 < length (f x)) -> length l <= length (concat (map f l)).
Proof.
  intros Hf. induction l as [|x l IH]; [done|]. cbn. rewrite length_app.
  specialize (Hf x). lia.
Qed.

(** A left merge keeps every left row at least once. *)
Lemma merge_left_rows (left right merged : DataFrame) (left_on right_on : string) :
  merge_left left right left_on right_on = Return merged ->
  length (rows left) <= length (rows merged).
Proof.
  unfold merge_left.
  destruct (index_of right_on (columns right)) as [ri|]; [|done].
  destruct (index_of left_on (columns left)) as [li|]; [|done].
  intros [= <-]. cbn [rows]. apply concat_nonempty_length. intros lrow.
  destruct (List.filter _ _) as [|rrow matches]; cbn; [lia|lia].
Qed.

(** The left merge on [STATION] and [ID] of frames without a common label,
    when no station matches two metadata rows. *)
Lemma merge_left_unique (left right merged : DataFrame) :
  merge_left left right "STATION" "ID" = Return merged ->
  Forall (fun c => c ∉ columns right) (columns left) ->
  (forall station, length (metadata_matches right station) <= 1) ->
  exists li,
    index_of "STATION" (columns left) = Some li
    /\ columns merged = columns left ++ columns right
    /\ rows merged
       = map (fun lrow =>
                lrow ++ match metadata_matches right (nth li lrow None) with
                        | rrow :: _ => rrow
                        | [] => replicate (length (columns right)) None
                        end) (rows left).
Proof.
  unfold merge_left, metadata_matches.
  destruct (index_of "ID" (columns right)) as [ri|]; [|done].
  destruct (index_of "STATION" (columns left)) as [li|]; [|done].
  intros [= <-] Hdisjoint Hunique. exists li. cbn [columns rows].
  split; [done|]. split.
  - rewrite !suffixed_disjoint; [done| |done].
    apply Forall_forall. intros c Hc Hin.
    rewrite Forall_forall in Hdisjoint. by apply (Hdisjoint c).
  - apply concat_singletons. intros lrow. specialize (Hunique (nth li lrow None)).
    destruct (List.filter _ _) as [|rrow [|rrow' matches]]; [done|done|].
    cbn in Hunique. lia.
Qed.

Lemma del_column_rows (data out : DataFrame) (name : string) :
  del_column data name = Return out -> length (rows out) = length (rows data).
Proof.
  unfold del_column. destruct (index_of name (columns data)); [|done].
  intros [= <-]. cbn [rows]. by rewrite length_map.
Qed.

Lemma getitem_rectangular (data out : DataFrame) (names : list string) :
  getitem data names = Return out ->
  Forall (fun row => length row = length (columns out)) (rows out).
Proof.
  unfold getitem.
  destruct (indices_of names (columns data)) as [idx|] eqn:Hidx; [|done].
  cbn [obind]. intros [= <-]. cbn [rows columns].
  apply Forall_forall. intros row Hrow.
  apply list_elem_of_fmap in Hrow as (r & -> & _).
  rewrite length_map. by eapply indices_of_length.
Qed.

(** The steps of the assembly, when it returns. *)
Lemma assembly_returns (refs : references) (result : list json)
    (metrics : option (list string)) (table : DataFrame) :
  obind (joined_data refs result) (fun data => ordered_columns data metrics)
  = Return table ->
  exists data merged data1 data2,
    pd_DataFrame result = Return data
    /\ merge_left data (load_dataset_stations refs) "STATION" "ID" = Return merged
    /\ del_column merged "ID" = Return data1
    /\ del_column data1 "STATE" = Return data2
    /\ getitem data2 (columns table) = Return table.
Proof.
  unfold joined_data.
  destruct (pd_DataFrame result) as [data|] eqn:Hdata; [|done]. cbn [obind].
  destruct (merge_left data _ _ _) as [merged|] eqn:Hmerge; [|done]. cbn [obind].
  destruct (del_column merged "ID") as [data1|] eqn:Hdel1; [|done]. cbn [obind].
  destruct (del_column data1 "STATE") as [data2|] eqn:Hdel2; [|done]. cbn [obind].
  unfold ordered_columns. intros Htable.
  destruct (getitem_columns _ _ _ Htable) as [Hcolumns _].
  rewrite <- Hcolumns in Htable. by exists data, merged, data1, data2.
Qed.

(** X11: the table the driver returns has at least one row for every
    fetched record (the merge is a left join: a record without matching
    station metadata is kept), and every row has exactly one cell per
    column of the table. *)
Theorem noaa_api_connector_table_shape (w : world) (countries : list string)
    (start_date : datetime) (end_date : option datetime)
    (metrics : option (list string)) (s s' : io_state) (table : DataFrame) :
  noaa_api_connector w countries start_date end_date metrics s = (Return table, s') ->
  length (concat (map (fun country =>
                         concat (map (records_of w)
                                     (urls_of w start_date end_date metrics country)))
                      countries))
  <= length (rows table)
  /\ Forall (fun row => length row = length (columns table)) (rows table).
Proof.
  intros Hrun. apply noaa_api_connector_returns_inv in Hrun as (_ & _ & Htable).
  apply assembly_returns in Htable
    as (data & merged & data1 & data2 & Hdata & Hmerge & Hdel1 & Hdel2 & Hget).
  split; [|by eapply getitem_rectangular].
  destruct (getitem_columns _ _ _ Hget) as [_ ->].
  rewrite (del_column_rows _ _ _ Hdel2), (del_column_rows _ _ _ Hdel1).
  apply merge_left_rows in Hmerge.
  apply pd_DataFrame_frame in Hdata as (records & Hresult & Hlen & _).
  change (fun country => concat (map (records_of w)
                                    (urls_of w start_date end_date metrics country)))
    with (fetched_records w start_date end_date metrics).
  rewrite Hresult, length_map. lia.
Qed.

Lemma merged_column_left (left right merged : DataFrame) (li : nat) (c : string)
    (cells : list cell) (extend : list cell -> list cell) :
  columns merged = columns left ++ columns right ->
  rows merged = map (fun lrow => lrow ++ extend lrow) (rows left) ->
  Forall (fun row => length row = length (columns left)) (rows left) ->
  column left c = Some cells ->
  column merged c = Some cells.
Proof.
  unfold column. intros -> -> Hwidth.
  destruct (index_of c (columns left)) as [i|] eqn:Hi; [|done].
  intros [= <-]. rewrite index_of_app, Hi. f_equal.
  rewrite map_map. apply Forall_fmap_ext_1.
  eapply Forall_impl; [exact Hwidth|]. intros lrow Hlen. cbn beta in Hlen |- *.
  apply app_nth1. pose proof (index_of_lt _ _ _ Hi) as Hlt.
  unfold cell in *. lia.
Qed.

Lemma merged_column_right (left right merged : DataFrame) (c : string) (i : nat)
    (extend : list cell -> list cell) :
  columns merged = columns left ++ columns right ->
  rows merged = map (fun lrow => lrow ++ extend lrow) (rows left) ->
  Forall (fun row => length row = length (columns left)) (rows left) ->
  c ∉ columns left ->
  index_of c (columns right) = Some i ->
  column merged c = Some (map (fun lrow => nth i (extend lrow) None) (rows left)).
Proof.
  unfold column. intros -> -> Hwidth Hleft Hi.
  rewrite index_of_app, Hi.
  destruct (index_of c (columns left)) as [j|] eqn:Hj.
  { apply index_of_Some, list_elem_of_lookup_2 in Hj. done. }
  cbn [option_map]. f_equal.
  rewrite map_map. apply Forall_fmap_ext_1.
  eapply Forall_impl; [exact Hwidth|]. intros lrow Hlen. cbn beta in Hlen |- *.
  rewrite <- Hlen. apply app_nth2_plus.
Qed.

Lemma nth_replicate_None (n i : nat) : nth i (replicate n (@None json)) None = None.
Proof. revert i. induction n as [|n IH]; intros [|i]; cbn; auto. Qed.

(** X12: the merge property. Suppose the driver returns a table, no
    fetched record has a key that is also a label of the station metadata,
    and no station matches two metadata rows. Then the table has exactly
    one row per fetched record, in fetch order; a column named after a
    record key holds, row by row, the records' values for that key
    (missing where a record lacks it); and a column of the station metadata
    holds, row by row, the metadata of the record's [STATION], or a missing
    value when the metadata has no row for that station. *)
Theorem noaa_api_connector_table_content (w : world) (countries : list string)
    (start_date : datetime) (end_date : option datetime)
    (metrics : option (list string)) (s s' : io_state) (table : DataFrame) :
  let stations := load_dataset_stations (refdata w) in
  let result :=
    concat (map (fun country =>
                   concat (map (records_of w)
                               (urls_of w start_date end_date metrics country)))
                countries) in
  noaa_api_connector w countries start_date end_date metrics s = (Return table, s') ->
  (forall fields c,
     JObj fields ∈ result -> c ∈ map fst fields -> c ∉ columns stations) ->
  (forall station, length (metadata_matches stations station) <= 1) ->
  exists records,
    result = map JObj records
    /\ length (rows table) = length records
    /\ (forall c,
          c ∈ columns table -> c <> "ID" -> c <> "STATE" ->
          ((exists fields, fields ∈ records /\ c ∈ map fst fields) ->
           column table c = Some (map (field_cell c) records))
          /\ (c ∈ columns stations ->
              column table c
              = Some (map (fun fields =>
                             metadata_cell stations c (field_cell "STATION" fields))
                          records))).
Proof.
  intros stations result Hrun Hdisjoint Hunique.
  apply noaa_api_connector_returns_inv in Hrun as (_ & _ & Htable).
  change (concat (map (fetched_records w start_date end_date metrics) countries))
    with result in Htable.
  apply assembly_returns in Htable
    as (data & merged & data1 & data2 & Hdata & Hmerge & Hdel1 & Hdel2 & Hget).
  fold stations in Hmerge.
  apply pd_DataFrame_frame in Hdata
    as (records & Hresult & Hlen & Hwidth & Hlabels & Hcolumn).
  assert (Hseparate : Forall (fun c => c ∉ columns stations) (columns data)).
  { apply Forall_forall. intros c Hc. apply Hlabels in Hc as (fields & Hf & Hc).
    apply (Hdisjoint fields); [|done].
    rewrite Hresult. apply list_elem_of_fmap. by exists fields. }
  destruct (merge_left_unique _ _ _ Hmerge Hseparate Hunique)
    as (li & Hli & Hcols & Hrows).
  exists records. split; [exact Hresult|]. split.
  { destruct (getitem_columns _ _ _ Hget) as [_ ->].
    rewrite (del_column_rows _ _ _ Hdel2), (del_column_rows _ _ _ Hdel1).
    by rewrite Hrows, length_map. }
  intros c Hc Hid Hstate.
  assert (Hc2 : c ∈ columns data2).
  { apply getitem_requires in Hget. rewrite Forall_forall in Hget. by apply Hget. }
  assert (Hc1 : c ∈ columns data1) by by eapply del_column_columns.
  assert (Hcm : c ∈ columns merged) by by eapply del_column_columns.
  rewrite (getitem_column _ _ _ _ Hget Hc).
  rewrite (del_column_column _ _ _ _ Hdel2 Hstate Hc1).
  rewrite (del_column_column _ _ _ _ Hdel1 Hid Hcm).
  split.
  - intros Hkey. apply Hlabels in Hkey.
    eapply merged_column_left; [exact li|exact Hcols|exact Hrows|exact Hwidth|].
    by apply Hcolumn.
  - intros Hmeta.
    assert (Hnot : c ∉ columns data).
    { intros Hin. rewrite Forall_forall in Hseparate. by apply (Hseparate c). }
    destruct (index_of_elem_of _ _ Hmeta) as [i Hi].
    rewrite (merged_column_right _ _ _ _ i _ Hcols Hrows Hwidth Hnot Hi).
    f_equal.
    assert (Hstation : map (fun row => nth li row None) (rows data)
                       = map (field_cell "STATION") records).
    { assert (Hin : "STATION" ∈ columns data)
        by (apply index_of_Some in Hli; by apply list_elem_of_lookup_2 in Hli).
      specialize (Hcolumn _ Hin). unfold column in Hcolumn. rewrite Hli in Hcolumn.
      by injection Hcolumn. }
    transitivity (map (fun station => metadata_cell stations c station)
                      (map (fun row => nth li row None) (rows data))).
    + rewrite map_map. apply map_ext. intros lrow.
      unfold metadata_cell. rewrite Hi.
      destruct (metadata_matches stations (nth li lrow None)); [|done].
      apply nth_replicate_None.
    + by rewrite Hstation, map_map.
Qed.

Lemma all_records_of_objects (records : list (list (string * json))) :
  all_records (map JObj records) = Return records.
Proof. induction records as [|r records IH]; [done|]. cbn. by rewrite IH. Qed.

Lemma indices_of_complete (names labels : list string) :
  Forall (fun n => n ∈ labels) names -> exists idx, indices_of names labels = Return idx.
Proof.
  induction 1 as [|n names Hn _ [idx IH]]; [by eexists|].
  cbn [indices_of]. destruct (index_of_elem_of _ _ Hn) as [i ->]. rewrite IH.
  by eexists.
Qed.

Lemma del_column_complete (data : DataFrame) (name : string) :
  name ∈ columns data ->
  exists out,
    del_column data name = Return out
    /\ forall c, c ∈ columns data -> c <> name -> c ∈ columns out.
Proof.
  intros Hin. unfold del_column.
  destruct (index_of_elem_of _ _ Hin) as [j Hj]. rewrite Hj.
  eexists. split; [reflexivity|]. cbn [columns]. intros c Hc Hne.
  destruct (index_of_elem_of _ _ Hc) as [i Hi].
  destruct (index_of_delete _ _ _ _ _ Hj Hi Hne) as [Hidx _].
  apply index_of_Some in Hidx. by apply list_elem_of_lookup_2 in Hidx.
Qed.

Lemma field_cell_key (name : string) (fields : list (string * json)) (v : json) :
  field_cell name fields = Some v -> name ∈ map fst fields.
Proof.
  unfold field_cell.
  induction fields as [|[k x] fields IH]; cbn [find map fst]; [done|].
  destruct (String.eqb_spec k name) as [->|Hne].
  - intros _. apply list_elem_of_here.
  - intros Hfind. apply list_elem_of_further. by apply IH.
Qed.

(** X13: when the driver returns. If every country resolves and each of
    its requests completes, every fetched item is a JSON object with a
    string under [STATION], some record has a [DATE], no record key is a
    label of the station metadata, the metadata has the columns [ID],
    [STATE] and the seven fixed metadata columns, and every [ID] of the
    metadata is a string, then the driver returns a table; it has a row for
    every record, and every requested metric that some record has is one of
    its columns. (The merge keys are strings on both sides: pandas rejects
    a merge of a numeric with a string key column, or of unhashable keys.) *)
Theorem noaa_api_connector_returns_table (w : world) (countries : list string)
    (start_date : datetime) (end_date : option datetime)
    (metrics : option (list string)) (s : io_state)
    (records : list (list (string * json))) :
  let stations := load_dataset_stations (refdata w) in
  Forall (country_completes w start_date end_date metrics) countries ->
  concat (map (fetched_records w start_date end_date metrics) countries)
  = map JObj records ->
  (exists fields, fields ∈ records /\ "DATE" ∈ map fst fields) ->
  (forall fields, fields ∈ records ->
                  exists id, field_cell "STATION" fields = Some (JStr id)) ->
  (forall fields c, fields ∈ records -> c ∈ map fst fields -> c ∉ columns stations) ->
  Forall (fun c => c ∈ columns stations)
         ["ID"; "STATE"; "LATITUDE"; "LONGITUDE"; "ELEVATION"; "NAME";
          "GSN FLAG"; "HCN/CRN FLAG"; "WMO ID"] ->
  (exists ids, column stations "ID" = Some ids
               /\ Forall (fun id => exists text, id = Some (JStr text)) ids) ->
  exists table s',
    noaa_api_connector w countries start_date end_date metrics s = (Return table, s')
    /\ length records <= length (rows table)
    /\ (forall m fields,
          m ∈ default DEFAULT_METRICS metrics ->
          fields ∈ records -> m ∈ map fst fields ->
          m ∈ columns table).
Proof.
  intros stations Hall Hresult Hdate Htext Hdisjoint Hmeta _.
  assert (Hstation : exists fields, fields ∈ records /\ "STATION" ∈ map fst fields).
  { destruct Hdate as (fields & Hin & _). exists fields. split; [done|].
    destruct (Htext fields Hin) as [id Hid]. by eapply field_cell_key. }
  destruct (country_loop_completes w start_date end_date metrics countries Hall []
              (after_check (refdata w) s)) as (s' & Hloop & _).
  rewrite noaa_api_connector_unfold, Hloop. cbn [app]. rewrite Hresult.
  unfold joined_data, pd_DataFrame. rewrite all_records_of_objects. cbn [obind].
  set (labels := foldl add_labels [] records).
  set (data := mk_frame labels _). fold stations.
  assert (Hlabels : forall c, (exists fields, fields ∈ records /\ c ∈ map fst fields)
                              -> c ∈ labels).
  { intros c Hin. apply frame_labels_grow. by right. }
  assert (Hseparate : Forall (fun c => c ∉ columns stations) labels).
  { apply Forall_forall. intros c Hc.
    apply frame_labels_origin in Hc as [Hc|(fields & Hf & Hc)].
    - by apply not_elem_of_nil in Hc.
    - by apply (Hdisjoint fields). }
  assert (Hseparate' : Forall (fun c => c ∉ labels) (columns stations)).
  { apply Forall_forall. intros c Hc Hin. rewrite Forall_forall in Hseparate.
    by apply (Hseparate c). }
  rewrite Forall_forall in Hmeta.
  destruct (index_of_elem_of "ID" (columns stations)) as [ri Hri];
    [apply Hmeta; compute_done|].
  destruct (index_of_elem_of "STATION" labels) as [li Hli]; [by apply Hlabels|].
  destruct (merge_left data stations "STATION" "ID") as [merged|] eqn:Hmerge.
  2: { unfold merge_left in Hmerge. cbn [columns data] in Hmerge.
       by rewrite Hri, Hli in Hmerge. }
  assert (Hmerged : columns merged = labels ++ columns stations).
  { unfold merge_left in Hmerge. cbn [columns data] in Hmerge.
    rewrite Hri, Hli in Hmerge. injection Hmerge as <-. cbn [columns].
    by rewrite !suffixed_disjoint. }
  cbn [obind].
  assert (Hrows : length records <= length (rows merged)).
  { apply merge_left_rows in Hmerge. cbn [rows data] in Hmerge.
    by rewrite length_map in Hmerge. }
  destruct (del_column_complete merged "ID") as (data1 & Hdel1 & Hkeep1).
  { rewrite Hmerged. apply elem_of_app. right. apply Hmeta. compute_done. }
  rewrite Hdel1. cbn [obind].
  destruct (del_column_complete data1 "STATE") as (data2 & Hdel2 & Hkeep2).
  { apply Hkeep1; [|done]. rewrite Hmerged. apply elem_of_app. right.
    apply Hmeta. compute_done. }
  rewrite Hdel2. cbn [obind].
  assert (Hkept : forall c, c ∈ labels \/ c ∈ columns stations ->
                            c <> "ID" -> c <> "STATE" -> c ∈ columns data2).
  { intros c Hc Hid Hst. apply Hkeep2; [|done]. apply Hkeep1; [|done].
    rewrite Hmerged. by apply elem_of_app. }
  assert (Hno_id : "ID" ∉ labels).
  { intros Hin. rewrite Forall_forall in Hseparate. apply (Hseparate "ID" Hin).
    apply Hmeta. compute_done. }
  assert (Hno_state : "STATE" ∉ labels).
  { intros Hin. rewrite Forall_forall in Hseparate. apply (Hseparate "STATE" Hin).
    apply Hmeta. compute_done. }
  assert (Hkey : forall c, c ∈ labels -> c ∈ columns data2).
  { intros c Hc. apply Hkept; [by left| |]; by intros ->. }
  assert (Hfixed : Forall (fun c => c ∈ columns data2) FIXED_COLUMNS).
  { apply Forall_forall. intros c Hc. unfold FIXED_COLUMNS in Hc.
    apply elem_of_cons in Hc as [->|Hc]; [apply Hkey; by apply Hlabels|].
    apply elem_of_cons in Hc as [->|Hc]; [apply Hkey; by apply Hlabels|].
    repeat (apply elem_of_cons in Hc as [->|Hc];
            [apply Hkept; [right; apply Hmeta; compute_done|done|done]|]).
    by apply not_elem_of_nil in Hc. }
  unfold ordered_columns.
  set (names := FIXED_COLUMNS ++ List.filter (has_column data2) _).
  destruct (indices_of_complete names (columns data2)) as [idx Hidx].
  { apply Forall_app. split; [exact Hfixed|].
    apply Forall_forall. intros m Hm.
    apply list_elem_of_In, filter_In in Hm as [_ Hm]. by apply has_column_elem_of. }
  unfold getitem. rewrite Hidx. cbn [obind].
  eexists _, _. split; [reflexivity|]. cbn [rows columns].
  split.
  - pose proof (del_column_rows _ _ _ Hdel2) as Hrows2.
    pose proof (del_column_rows _ _ _ Hdel1) as Hrows1.
    rewrite length_map. unfold cell in *. lia.
  - intros m fields Hm Hf Hin. subst names. apply elem_of_app. right.
    apply list_elem_of_In, filter_In. split; [by apply list_elem_of_In|].
    apply has_column_elem_of. apply Hkey, Hlabels. by exists fields.
Qed.

(** ** The further properties at work in the example world *)

Lemma example_ok_succeeds :
  request_succeeded Example.w "https://ok" Example.records_US.
Proof. apply fate_succeeds. vm_compute. reflexivity. Qed.

Lemma example_US_succeeds :
  request_succeeded Example.w Example.url_US Example.records_US.
Proof. apply fate_succeeds. vm_compute. reflexivity. Qed.

Lemma example_CA_fails :
  request_failed Example.w Example.url_CA Example.error_CA.
Proof.
  apply (fate_fails Example.w Example.url_CA (mk_error Example.url_CA Example.error_CA)).
  vm_compute. reflexivity.
Qed.

Lemma example_countries_complete :
  Forall (country_completes Example.w Example.start_date (Some Example.end_date)
            (Some ["SNOW"; "TMAX"])) ["CA"; "US"].
Proof.
  apply Forall_cons. split; [|apply Forall_cons; split; [|apply Forall_nil_2]].
  - exists [Example.url_CA]. split; [vm_compute; reflexivity|].
    apply Forall_cons. split; [|apply Forall_nil_2].
    apply completes_answered. left. eexists. apply example_CA_fails.
  - exists [Example.url_US]. split; [vm_compute; reflexivity|].
    apply Forall_cons. split; [|apply Forall_nil_2].
    apply completes_answered. right. eexists. apply example_US_succeeds.
Qed.

Lemma example_run_returns :
  noaa_api_connector Example.w ["CA"; "US"] Example.start_date
                     (Some Example.end_date) (Some ["SNOW"; "TMAX"]) fresh
  = (Return Example.table_US,
     snd (noaa_api_connector Example.w ["CA"; "US"] Example.start_date
                             (Some Example.end_date) (Some ["SNOW"; "TMAX"]) fresh)).
Proof. vm_compute. reflexivity. Qed.

Lemma example_stations_unique (station : cell) :
  length (metadata_matches Example.stations station) <= 1.
Proof.
  unfold metadata_matches. cbn [Example.stations columns rows index_of].
  cbn -[cell_eqb Nat.le].
  destruct (cell_eqb station (Some (JStr "S1"))) eqn:H1;
    destruct (cell_eqb station (Some (JStr "C1"))) eqn:H2; cbn; try lia.
  destruct station as [[| | |str| |]|]; try discriminate.
  cbn in H1, H2. apply String.eqb_eq in H1, H2. congruence.
Qed.

Lemma example_labels_separate (fields : list (string * json)) (c : string) :
  JObj fields ∈ Example.records_US ->
  c ∈ map fst fields ->
  c ∉ columns Example.stations.
Proof.
  intros Hf Hc. unfold Example.records_US in Hf.
  repeat (apply elem_of_cons in Hf as [Hf|Hf];
          [injection Hf as ->; cbn in Hc;
           repeat (apply elem_of_cons in Hc as [->|Hc]; [compute_done|]);
           by apply not_elem_of_nil in Hc|]).
  by apply not_elem_of_nil in Hf.
Qed.

Lemma get_parse_response_returns_iff_witness :
  Forall (fun url =>
            (exists payload, request_failed Example.w url payload)
            \/ (exists items, request_succeeded Example.w url items))
         ["https://ok"; Example.url_CA]
  /\ fst (get_parse_response Example.w ["https://ok"; Example.url_CA] fresh)
     = Return (concat (map (records_of Example.w) ["https://ok"; Example.url_CA]),
               concat (map (errors_of Example.w) ["https://ok"; Example.url_CA])).
Proof.
  assert (H : Forall (fun url =>
            (exists payload, request_failed Example.w url payload)
            \/ (exists items, request_succeeded Example.w url items))
         ["https://ok"; Example.url_CA]).
  { apply Forall_cons. split; [|apply Forall_cons; split; [|apply Forall_nil_2]].
    - right. eexists. apply example_ok_succeeds.
    - left. eexists. apply example_CA_fails. }
  split; [exact H|].
  destruct (get_parse_response_returns_iff Example.w ["https://ok"; Example.url_CA] fresh)
    as [_ Hreturns].
  destruct (Hreturns H) as [Hout _]. exact Hout.
Defined.

Lemma get_parse_response_app_witness :
  fst (get_parse_response Example.w (["https://ok"] ++ [Example.url_CA]) fresh)
  = Return (Example.records_US ++ [], [] ++ [mk_error Example.url_CA Example.error_CA])
  /\ fst (get_parse_response Example.w (["https://bad"] ++ ["https://ok"]) fresh)
     = Raise JSONDecodeError.
Proof.
  destruct (get_parse_response_app Example.w ["https://ok"] [Example.url_CA] fresh)
    as [Hreturn _].
  destruct (get_parse_response_app Example.w ["https://bad"] ["https://ok"] fresh)
    as [_ Hraise].
  split.
  - apply (Hreturn fresh fresh (Example.records_US, [])
                   ([], [mk_error Example.url_CA Example.error_CA])
                   (snd (get_parse_response Example.w ["https://ok"] fresh))
                   (snd (get_parse_response Example.w [Example.url_CA] fresh)));
      vm_compute; reflexivity.
  - apply (Hraise fresh). vm_compute. reflexivity.
Defined.

Lemma get_parse_response_Permutation_witness :
  exists results errors s',
    get_parse_response Example.w [Example.url_CA; "https://ok"] fresh
    = (Return (results, errors), s')
    /\ Example.records_US ≡ₚ results
    /\ [mk_error Example.url_CA Example.error_CA] ≡ₚ errors.
Proof.
  apply (get_parse_response_Permutation Example.w
           ["https://ok"; Example.url_CA] [Example.url_CA; "https://ok"]
           fresh fresh
           (snd (get_parse_response Example.w ["https://ok"; Example.url_CA] fresh))).
  - apply Permutation_swap.
  - vm_compute. reflexivity.
Defined.

Lemma noaa_api_connector_requests_and_records_witness :
  requested (snd (noaa_api_connector Example.w ["CA"; "US"] Example.start_date
                    (Some Example.end_date) (Some ["SNOW"; "TMAX"]) fresh))
  = requested fresh
    ++ concat (map (urls_of Example.w Example.start_date (Some Example.end_date)
                            (Some ["SNOW"; "TMAX"])) ["CA"; "US"]).
Proof.
  destruct (noaa_api_connector_requests_and_records _ _ _ _ _ _ _ _ example_run_returns)
    as [Hrequested _].
  exact Hrequested.
Defined.

Lemma noaa_api_connector_error_log_witness :
  List.filter is_error_record
    (logged (snd (noaa_api_connector Example.w ["CA"; "US"] Example.start_date
                    (Some Example.end_date) (Some ["SNOW"; "TMAX"]) fresh)))
  = List.filter is_error_record (logged fresh)
    ++ map (fun error => (INFO, Obj error))
           (concat (map (fun country =>
                           concat (map (errors_of Example.w)
                                       (urls_of Example.w Example.start_date
                                                (Some Example.end_date)
                                                (Some ["SNOW"; "TMAX"]) country)))
                        ["CA"; "US"])).
Proof.
  exact (noaa_api_connector_error_log _ _ _ _ _ _ _ _ example_run_returns).
Defined.

Lemma noaa_api_connector_unknown_country_later_witness :
  fst (noaa_api_connector Example.w (["CA"; "US"] ++ "ZZ" :: ["RS"]) Example.start_date
                          (Some Example.end_date) (Some ["SNOW"; "TMAX"]) fresh)
  = Raise (ValueError "Wrong country code %s" "ZZ")
  /\ requested (snd (noaa_api_connector Example.w (["CA"; "US"] ++ "ZZ" :: ["RS"])
                       Example.start_date (Some Example.end_date)
                       (Some ["SNOW"; "TMAX"]) fresh))
     = requested fresh
       ++ concat (map (urls_of Example.w Example.start_date (Some Example.end_date)
                               (Some ["SNOW"; "TMAX"])) ["CA"; "US"]).
Proof.
  apply noaa_api_connector_unknown_country_later.
  - exact example_countries_complete.
  - vm_compute. reflexivity.
Defined.

Lemma noaa_api_connector_request_aborts_witness :
  fst (noaa_api_connector Example.w (["CA"; "US"] ++ "RS" :: ["CA"]) Example.start_date
                          (Some Example.end_date) (Some ["SNOW"; "TMAX"]) fresh)
  = Raise ConnectionError.
Proof.
  assert (Hurls : exists url upost,
    get_request_urls Example.w "RS" Example.start_date (Some Example.end_date)
                     (Some ["SNOW"; "TMAX"])
    = Return ([] ++ url :: upost)
    /\ fate Example.w url = Aborts ConnectionError).
  { eexists _, _. split; vm_compute; reflexivity. }
  destruct Hurls as (url & upost & Hurls & Hfate).
  destruct (noaa_api_connector_request_aborts Example.w ["CA"; "US"] "RS" ["CA"]
              [] url upost ConnectionError Example.start_date (Some Example.end_date)
              (Some ["SNOW"; "TMAX"]) fresh
              example_countries_complete Hurls (Forall_nil_2 _) Hfate)
    as [Hraise _].
  exact Hraise.
Defined.

Lemma noaa_api_connector_no_records_witness :
  fst (noaa_api_connector Example.w ["CA"] Example.start_date
                          (Some Example.end_date) (Some ["SNOW"; "TMAX"]) fresh)
  = Raise (KeyError (if has_column (load_dataset_stations (refdata Example.w)) "ID"
                     then "STATION" else "ID")).
Proof.
  apply noaa_api_connector_no_records.
  - pose proof example_countries_complete as Hall.
    apply Forall_cons in Hall as [Hca _]. by constructor.
  - vm_compute. reflexivity.
Defined.

Lemma noaa_api_connector_table_shape_witness :
  2 <= length (rows Example.table_US)
  /\ Forall (fun row => length row = length (columns Example.table_US))
            (rows Example.table_US).
Proof.
  exact (noaa_api_connector_table_shape _ _ _ _ _ _ _ _ example_run_returns).
Defined.

Lemma noaa_api_connector_table_content_witness :
  exists records,
    Example.records_US = map JObj records
    /\ column Example.table_US "TMAX" = Some (map (field_cell "TMAX") records)
    /\ column Example.table_US "NAME"
       = Some (map (fun fields =>
                      metadata_cell Example.stations "NAME" (field_cell "STATION" fields))
                   records).
Proof.
  destruct (noaa_api_connector_table_content _ _ _ _ _ _ _ _ example_run_returns)
    as (records & Hrecords & _ & Hcolumns).
  - intros fields c Hf Hc. by apply (example_labels_separate fields).
  - apply example_stations_unique.
  - assert (Heq : Example.records_US = map JObj records)
      by (rewrite <- Hrecords; vm_compute; reflexivity).
    exists records. split; [exact Heq|].
    assert (Hkey : exists fields, fields ∈ records /\ "TMAX" ∈ map fst fields).
    { unfold Example.records_US in Heq.
      destruct records as [|fields records]; [discriminate Heq|].
      injection Heq as Hfields _. exists fields.
      split; [apply list_elem_of_here|]. rewrite <- Hfields. compute_done. }
    split.
    + apply (Hcolumns "TMAX"); [compute_done|done|done|exact Hkey].
    + apply (Hcolumns "NAME"); [compute_done|done|done|compute_done].
Defined.

Lemma noaa_api_connector_returns_table_witness :
  exists table s',
    noaa_api_connector Example.w ["CA"; "US"] Example.start_date
                       (Some Example.end_date) (Some ["SNOW"; "TMAX"]) fresh
    = (Return table, s')
    /\ 2 <= length (rows table).
Proof.
  destruct (noaa_api_connector_returns_table Example.w ["CA"; "US"] Example.start_date
              (Some Example.end_date) (Some ["SNOW"; "TMAX"]) fresh
              [[("DATE", JStr "2020-03-01"); ("STATION", JStr "S1"); ("TMAX", JStr "12.3")];
               [("DATE", JStr "2020-03-01"); ("STATION", JStr "S3"); ("TMAX", JStr "28.0")]])
    as (table & s' & Hrun & Hrows & _).
  - exact example_countries_complete.
  - vm_compute. reflexivity.
  - eexists. split; [apply list_elem_of_here|compute_done].
  - intros fields Hf.
    apply elem_of_cons in Hf as [->|Hf]; [by eexists|].
    apply elem_of_cons in Hf as [->|Hf]; [by eexists|].
    by apply not_elem_of_nil in Hf.
  - intros fields c Hf Hc. apply (example_labels_separate fields); [|done].
    unfold Example.records_US.
    apply elem_of_cons in Hf as [->|Hf]; [apply list_elem_of_here|].
    apply elem_of_cons in Hf as [->|Hf];
      [apply list_elem_of_further, list_elem_of_here|].
    by apply not_elem_of_nil in Hf.
  - repeat constructor; compute_done.
  - eexists. split; [reflexivity|].
    apply Forall_cons. split; [by eexists|].
    apply Forall_cons. split; [by eexists|]. apply Forall_nil_2.
  - by exists table, s'.
Defined.

(** ** Determinism of the pipeline *)

Lemma example_apis_agree (url : string) :
  Example.api_open url = Example.api_reordered url.
Proof.
  unfold Example.api_open, Example.api_reordered, Example.api.
  destruct (String.eqb_spec url Example.url_US_open) as [->|_]; [vm_compute; reflexivity|].
  destruct (String.eqb_spec url Example.url_CA_open) as [->|_]; [vm_compute; reflexivity|].
  destruct (String.eqb_spec url Example.url_US) as [->|_]; [vm_compute; reflexivity|].
  destruct (String.eqb_spec url Example.url_CA) as [->|_]; [vm_compute; reflexivity|].
  destruct (String.eqb_spec url "https://ok") as [->|_]; [vm_compute; reflexivity|].
  destruct (String.eqb_spec url "https://bad") as [->|_]; [vm_compute; reflexivity|].
  reflexivity.
Qed.

Lemma same_effect_refl {A} (o : outcome A) (s1 s2 : io_state) :
  same_effect (o, s1) (o, s2) s1 s2.
Proof. split; [done|]. exists []. cbn. by rewrite !app_nil_r. Qed.

Lemma same_effect_trans {A B} (r1 r2 : outcome A * io_state)
    (q1 q2 : outcome B * io_state) (s1 s2 : io_state) :
  (exists issued, requested (snd r1) = requested s1 ++ issued
                  /\ requested (snd r2) = requested s2 ++ issued) ->
  same_effect q1 q2 (snd r1) (snd r2) ->
  same_effect q1 q2 s1 s2.
Proof.
  intros (issued & Hr1 & Hr2) (Hout & more & Hq1 & Hq2).
  split; [done|]. exists (issued ++ more).
  by rewrite Hq1, Hq2, Hr1, Hr2, <- !app_assoc.
Qed.

Section SameEffect.
Variables w1 w2 : world.
Hypothesis same_references : refdata w1 = refdata w2.
Hypothesis same_responses : forall url, remote w1 url = remote w2 url.

Lemma parse_loop_same_effect (urls : list string) :
  forall total1 total2 i1 i2 results errors s1 s2,
    same_effect (parse_loop w1 total1 i1 urls results errors s1)
                (parse_loop w2 total2 i2 urls results errors s2) s1 s2.
Proof.
  induction urls as [|url urls IH]; intros; [apply same_effect_refl|].
  rewrite !parse_loop_step, (fate_ext w1 w2 same_responses).
  assert (Hstep : exists issued,
    requested (after_get total1 i1 url s1) = requested s1 ++ issued
    /\ requested (after_get total2 i2 url s2) = requested s2 ++ issued)
    by by exists [url].
  destruct (fate w2 url) as [e|entry|items].
  - split; [done|]. exact Hstep.
  - eapply (same_effect_trans (Return tt, _) (Return tt, _)); [exact Hstep|]. apply IH.
  - eapply (same_effect_trans (Return tt, _) (Return tt, _)); [exact Hstep|]. apply IH.
Qed.

Lemma country_loop_same_effect (start_date : datetime) (end_date : option datetime)
    (metrics : option (list string)) (countries : list string) :
  (end_date = None -> dt_date (now w1) = dt_date (now w2)) ->
  forall result s1 s2,
    same_effect (country_loop w1 countries start_date end_date metrics result s1)
                (country_loop w2 countries start_date end_date metrics result s2) s1 s2.
Proof.
  intros Hnow.
  induction countries as [|country countries IH]; intros result s1 s2;
    [apply same_effect_refl|].
  pose proof (get_request_urls_ext w1 w2 same_references country start_date end_date
                metrics Hnow) as Hurls.
  destruct (get_request_urls w2 country start_date end_date metrics) as [urls|e] eqn:Hurls2.
  - rewrite (country_loop_step w1 _ _ _ _ _ urls) by done.
    rewrite (country_loop_step w2 _ _ _ _ _ urls) by done.
    unfold get_parse_response.
    destruct (parse_loop_same_effect urls (Z.of_nat (length urls) - 1)
                (Z.of_nat (length urls) - 1) 0 0 [] []
                (after_announcement country s1) (after_announcement country s2))
      as (Hout & issued & Hreq1 & Hreq2).
    cbn [after_announcement requested] in Hreq1, Hreq2.
    destruct (parse_loop w1 _ 0 urls [] [] _) as [[parsed1|e1] t1];
      destruct (parse_loop w2 _ 0 urls [] [] _) as [[parsed2|e2] t2];
      cbn [fst snd] in *; try discriminate.
    + injection Hout as <-.
      eapply (same_effect_trans (Return tt, after_errors (snd parsed1) t1)
                                (Return tt, after_errors (snd parsed1) t2)); [|apply IH].
      exists issued. cbn [snd].
      destruct (after_errors_effects (snd parsed1) t1) as (-> & _).
      destruct (after_errors_effects (snd parsed1) t2) as (-> & _).
      done.
    + split; [cbn [fst]; congruence|]. by exists issued.
  - rewrite (country_loop_unresolved w1) with (e := e) by done.
    rewrite (country_loop_unresolved w2) with (e := e) by done.
    split; [done|]. exists []. cbn. by rewrite !app_nil_r.
Qed.
End SameEffect.

(** C9: two calls with the same arguments, in worlds with the same
    reference data and the same response for every URL, return the same
    table (or raise the same exception) and issue the same requests in the
    same order, whatever the state they start from (earlier requests, log,
    local files and hence whether the reference download runs); the clocks
    of the two worlds need to show the same date only when the end date is
    omitted. *)
Theorem noaa_api_connector_deterministic (w1 w2 : world) (countries : list string)
    (start_date : datetime) (end_date : option datetime)
    (metrics : option (list string)) (s1 s2 : io_state) :
  refdata w1 = refdata w2 ->
  (forall url, remote w1 url = remote w2 url) ->
  (end_date = None -> dt_date (now w1) = dt_date (now w2)) ->
  fst (noaa_api_connector w1 countries start_date end_date metrics s1)
  = fst (noaa_api_connector w2 countries start_date end_date metrics s2)
  /\ exists issued,
       requested (snd (noaa_api_connector w1 countries start_date end_date metrics s1))
       = requested s1 ++ issued
       /\ requested (snd (noaa_api_connector w2 countries start_date end_date metrics s2))
          = requested s2 ++ issued.
Proof.
  intros Hrefs Hremote Hnow. rewrite !noaa_api_connector_unfold.
  destruct (country_loop_same_effect w1 w2 Hrefs Hremote start_date end_date metrics
              countries Hnow [] (after_check (refdata w1) s1) (after_check (refdata w2) s2))
    as (Hout & issued & Hreq1 & Hreq2).
  destruct (after_check_effects (refdata w1) s1) as (Hc1 & _).
  destruct (after_check_effects (refdata w2) s2) as (Hc2 & _).
  rewrite Hc1 in Hreq1. rewrite Hc2 in Hreq2.
  destruct (country_loop w1 countries start_date end_date metrics [] _)
    as [[result1|e1] t1];
    destruct (country_loop w2 countries start_date end_date metrics [] _)
      as [[result2|e2] t2];
    cbn [fst snd] in *; try discriminate.
  - injection Hout as <-. rewrite Hrefs. split; [done|]. by exists issued.
  - split; [congruence|]. by exists issued.
Qed.

(** The clock matters when the end date is omitted: one day later the
    same call builds other requests, which this remote does not answer. *)
Lemma noaa_api_connector_depends_on_today :
  fst (noaa_api_connector Example.w_noon ["CA"; "US"] Example.start_date None
                          (Some ["SNOW"; "TMAX"]) fresh)
  = Return Example.table_US
  /\ fst (noaa_api_connector Example.w_next_day ["CA"; "US"] Example.start_date None
                            (Some ["SNOW"; "TMAX"]) fresh)
     = Raise ConnectionError.
Proof. split; vm_compute; reflexivity. Qed.

Lemma noaa_api_connector_deterministic_witness :
  fst (noaa_api_connector Example.w_noon ["CA"; "US"] Example.start_date None
                          (Some ["SNOW"; "TMAX"]) fresh)
  = Return Example.table_US
  /\ fst (noaa_api_connector Example.w_night ["CA"; "US"] Example.start_date None
                            (Some ["SNOW"; "TMAX"])
                            (mk_io ["https://earlier"] [] [true]
                                   {[ metadata_file Example.refs ]}))
     = Return Example.table_US
  /\ requested (snd (noaa_api_connector Example.w_night ["CA"; "US"] Example.start_date
                       None (Some ["SNOW"; "TMAX"])
                       (mk_io ["https://earlier"] [] [true]
                              {[ metadata_file Example.refs ]})))
     = ["https://earlier"; Example.url_CA_open; Example.url_US_open].
Proof.
  destruct (noaa_api_connector_deterministic Example.w_noon Example.w_night
              ["CA"; "US"] Example.start_date None (Some ["SNOW"; "TMAX"]) fresh
              (mk_io ["https://earlier"] [] [true] {[ metadata_file Example.refs ]}))
    as (Hsame & issued & Hnoon & Hnight).
  - reflexivity.
  - exact example_apis_agree.
  - intros _. reflexivity.
  - assert (Htable : fst (noaa_api_connector Example.w_noon ["CA"; "US"]
                            Example.start_date None (Some ["SNOW"; "TMAX"]) fresh)
                     = Return Example.table_US) by (vm_compute; reflexivity).
    assert (Hissued : requested (snd (noaa_api_connector Example.w_noon ["CA"; "US"]
                                        Example.start_date None (Some ["SNOW"; "TMAX"])
                                        fresh))
                      = [Example.url_CA_open; Example.url_US_open])
      by (vm_compute; reflexivity).
    rewrite Hissued in Hnoon. cbn [requested fresh app] in Hnoon. subst issued.
    split; [exact Htable|]. split; [by rewrite <- Hsame|exact Hnight].
Defined.
